(** * Chaindoc server SDK: the resilient HTTP request core

    A shallow embedding of [src/client.ts] (class [HttpClient] and
    [ChaindocError]) together with the configuration types of
    [src/types/index.ts], and the properties of the retry / backoff /
    classification logic stated over it.

    Modelling conventions.
    - JavaScript numbers that hold durations are the rationals ([Q]) that
      are IEEE 754 binary64 values; the arithmetic of [getRetryDelay] rounds
      the exact result of every operation to the nearest double, ties to
      even ([binary64]).  Infinities and NaN have no counterpart in [Q]:
      the model is the code as long as no double involved is infinite,
      that is for attempt indices below 1024 (a finite [Math.pow]) and a
      [maxDelayMs] of at most [2^1023].
      Counters and HTTP status codes are integers ([Z]).
    - JavaScript objects used as string maps are [gmap string string];
      the object spread [{...a, ...b}] is a right-biased union.
    - The runtime (the global [fetch], [Math.random], [JSON.stringify]) is
      a parameter of the development: the transport and the random source
      are oracles indexed by the number of earlier calls.
    - Effects (transport calls, [response.json()], sleeping, allocation of
      [FormData] objects) are recorded in an explicit [World] threaded by
      a state-and-exception monad. *)

From Stdlib Require Import ZArith QArith Qround Qminmax Qpower Lia Lqa String Ascii.
From Stdlib Require Import Floats.
From stdpp Require Import base strings gmap list pretty.

Set Warnings "-register-all".

Open Scope string_scope.
Open Scope list_scope.
Open Scope Z_scope.

(** ** JavaScript values *)

(** The values the client handles as [unknown]: request bodies and decoded
    JSON payloads.  They are finite trees of plain data, the values on
    which [JSON.stringify] returns a string and does not throw. *)
Inductive JsValue : Type :=
| JUndefined
| JNull
| JBool (b : bool)
| JNumber (q : Q)
| JNaN
| JString (s : string)
| JArray (items : list JsValue)
| JObject (fields : list (string * JsValue)).

(** ToBoolean: [undefined], [null], [false], [0], [NaN] and the empty
    string are falsy, everything else is truthy. *)
Definition truthy (v : JsValue) : bool :=
  match v with
  | JUndefined | JNull | JNaN => false
  | JBool b => b
  | JNumber q => negb (Qeq_bool q 0)
  | JString s => negb (s =? "")%string
  | JArray _ | JObject _ => true
  end.

(** The [typeof] operator. *)
Definition typeof (v : JsValue) : string :=
  match v with
  | JUndefined => "undefined"
  | JNull | JArray _ | JObject _ => "object"
  | JBool _ => "boolean"
  | JNumber _ | JNaN => "number"
  | JString _ => "string"
  end.

Fixpoint assoc (k : string) (fields : list (string * JsValue)) : option JsValue :=
  match fields with
  | [] => None
  | (k', v) :: rest => if (k =? k')%string then Some v else assoc k rest
  end.

(** [v[k]] for a string key that is not an array index or a built-in
    property: only plain objects carry it. *)
Definition get_prop (k : string) (v : JsValue) : option JsValue :=
  match v with
  | JObject fields => assoc k fields
  | _ => None
  end.

(** [k in v] for the same kind of key. *)
Definition has_prop (k : string) (v : JsValue) : bool :=
  match get_prop k v with Some _ => true | None => false end.

(** [String.prototype.includes]. *)
Fixpoint includes (s sub : string) : bool :=
  String.prefix sub s ||
  match s with
  | EmptyString => false
  | String _ s' => includes s' sub
  end.

(** [String.prototype.startsWith]. *)
Definition startsWith (s pre : string) : bool := String.prefix pre s.

(** [s.replace(/\/$/, "")]: drops one trailing slash. *)
Fixpoint strip_trailing_slash (s : string) : string :=
  match s with
  | EmptyString => EmptyString
  | String c EmptyString => if (c =? "/")%char then EmptyString else s
  | String c s' => String c (strip_trailing_slash s')
  end.

(** [Math.round]: the nearest integer, ties towards plus infinity. *)
Definition Math_round (x : Q) : Z := Qfloor (x + (1 # 2)).

(** ** Double-precision arithmetic *)

(** JavaScript numbers are IEEE 754 binary64 values: 53 bits of mantissa,
    exponents of the last mantissa bit from -1074 up.  Every arithmetic
    operation returns the double nearest to the exact result, ties going to
    the even mantissa. *)

Definition pow2 (e : Z) : Q := Qpower 2 e.

(** The integer [k] with [2^k <= x < 2^(k+1)], for [0 < x]. *)
Definition ilog2 (x : Q) : Z :=
  let k0 := Z.log2 (Qnum x) - Z.log2 (Zpos (Qden x)) in
  if Qle_bool (pow2 k0) x then k0 else k0 - 1.

(** The nearest integer, ties to the even one. *)
Definition round_half_even (s : Q) : Z :=
  let f := Qfloor s in
  match (s - inject_Z f ?= 1 # 2)%Q with
  | Lt => f
  | Gt => f + 1
  | Eq => if Z.even f then f else f + 1
  end.

(** The exponent of the last mantissa bit of the doubles around [x]:
    52 below the exponent of [x], and -1074 for subnormal numbers. *)
Definition binary64_exponent (x : Q) : Z := Z.max (ilog2 x - 52) (-1074).

Definition round_positive (x : Q) : Q :=
  let e := binary64_exponent x in
  (inject_Z (round_half_even (x / pow2 e)) * pow2 e)%Q.

(** The double nearest to [x]. *)
Definition binary64 (x : Q) : Q :=
  match (x ?= 0)%Q with
  | Eq => 0%Q
  | Gt => round_positive x
  | Lt => (- round_positive (- x))%Q
  end.

(** The operators [*], [+] and [-] on numbers. *)
Definition double_mul (x y : Q) : Q := binary64 (x * y).
Definition double_add (x y : Q) : Q := binary64 (x + y).
Definition double_sub (x y : Q) : Q := binary64 (x - y).

(** [Math.pow(2, n)] for an integer [n]. *)
Definition Math_pow2 (n : Z) : Q := binary64 (pow2 n).

(** The value of a machine double, for comparing [binary64] with the
    floating-point unit. *)
Definition double_value (f : float) : option Q :=
  match Prim2SF f with
  | S754_zero _ => Some 0%Q
  | S754_finite s m e =>
      Some ((if s then -1 else 1) * inject_Z (Zpos m) * pow2 e)%Q
  | S754_infinity _ | S754_nan => None
  end.

(** The arithmetic of [getRetryDelay] up to its [Math.round], on machine
    doubles. *)
Definition machine_jittered (base max : float) (attempt : Z) (u : float) : float :=
  let exponentialDelay := (base * Z.ldexp 1 attempt)%float in
  let cappedDelay :=
    if (exponentialDelay <? max)%float then exponentialDelay else max in
  let jitter := (cappedDelay * 0.25 * (u * 2 - 1))%float in
  (cappedDelay + jitter)%float.

(** The object spread [{...a, ...b}]: keys of [b] override keys of [a]. *)
Definition spread (a b : gmap string string) : gmap string string := b ∪ a.

(** [x ?? d]. *)
Definition nullish {A} (x : option A) (d : A) : A :=
  match x with Some a => a | None => d end.

(** ** ChaindocError *)

Record ChaindocError : Type := mkChaindocError {
  message : string;
  statusCode : option Z;
  response : JsValue;
  isRetryable : bool
}.

(** The one-character string holding a double quote. *)
Definition dquote : string := String (ascii_of_nat 34) EmptyString.

(** [new ChaindocError(message)], the remaining arguments defaulted. *)
Definition ChaindocError_of_message (msg : string) : ChaindocError :=
  mkChaindocError msg None JUndefined false.

(** What a [throw] can carry: a [ChaindocError], some other [Error]
    instance (with its [name] and [message]), or a value that is not an
    [Error]. *)
Inductive Thrown : Type :=
| ThrownChaindoc (e : ChaindocError)
| ThrownError (name msg : string)
| ThrownOther (v : JsValue).

(** [error instanceof Error], with the [name] and [message] of the
    instance.  [ChaindocError] extends [Error] and sets its name. *)
Definition as_Error (t : Thrown) : option (string * string) :=
  match t with
  | ThrownChaindoc e => Some ("ChaindocError", message e)
  | ThrownError name msg => Some (name, msg)
  | ThrownOther _ => None
  end.

(** ** Configuration (src/types/index.ts) *)

Record RetryConfig : Type := mkRetryConfig {
  rc_maxRetries : option Z;
  rc_baseDelayMs : option Q;
  rc_maxDelayMs : option Q
}.

Inductive ChaindocEnvironment : Type := production | staging | development.

(** The declared properties of [ChaindocConfig], and [cfg_baseUrl]: the
    property [config.baseUrl] that the constructor of [HttpClient] reads.
    The interface does not declare it, so it is [None] on every object
    that has the declared properties only. [cfg_secretKey] is an option
    because the constructor tests it for absence. *)
Record ChaindocConfig : Type := mkChaindocConfig {
  cfg_secretKey : option string;
  cfg_environment : option ChaindocEnvironment;
  cfg_timeout : option Q;
  cfg_headers : option (gmap string string);
  cfg_retry : option RetryConfig;
  cfg_baseUrl : option string
}.

(** The address each environment stands for, as documented on
    [ChaindocConfig.environment]. *)
Definition environment_url (e : ChaindocEnvironment) : string :=
  match e with
  | production => "https://api.chaindoc.io"
  | staging => "https://api-demo.chaindoc.io"
  | development => "https://api-demo.chaindoc.io"
  end.

(** ** HttpClient: constants, state and constructor *)

Definition DEFAULT_BASE_URL : string := "https://api.chaindoc.io".
Definition DEFAULT_TIMEOUT : Q := 30000.
Definition DEFAULT_MAX_RETRIES : Z := 3.
Definition DEFAULT_BASE_DELAY_MS : Q := 1000.
Definition DEFAULT_MAX_DELAY_MS : Q := 10000.

(** [Required<RetryConfig>]. *)
Record RetryPolicy : Type := mkRetryPolicy {
  maxRetries : Z;
  baseDelayMs : Q;
  maxDelayMs : Q
}.

Record HttpClient : Type := mkHttpClient {
  baseUrl : string;
  secretKey : string;
  timeout : Q;
  defaultHeaders : gmap string string;
  retryConfig : RetryPolicy
}.

(** [config.retry?.field ?? default]. *)
Definition retry_field {A} (r : option RetryConfig)
    (f : RetryConfig -> option A) (d : A) : A :=
  match r with
  | Some rc => nullish (f rc) d
  | None => d
  end.

(** The constructor of [HttpClient]: [inl] is the thrown [ChaindocError],
    [inr] the constructed client. *)
Definition constructor (config : ChaindocConfig) : ChaindocError + HttpClient :=
  match cfg_secretKey config with
  | None => inl (ChaindocError_of_message "secretKey is required")
  | Some key =>
    if (key =? "")%string then
      inl (ChaindocError_of_message "secretKey is required")
    else if negb (startsWith key "sk_") then
      inl (ChaindocError_of_message
             ("secretKey must start with " +:+ dquote +:+ "sk_" +:+ dquote))
    else
      inr {| baseUrl :=
               strip_trailing_slash (nullish (cfg_baseUrl config) DEFAULT_BASE_URL);
             secretKey := key;
             timeout := nullish (cfg_timeout config) DEFAULT_TIMEOUT;
             defaultHeaders :=
               spread (<["Content-Type" := "application/json"]>
                         (<["Authorization" := "Bearer " +:+ key]> ∅))
                      (nullish (cfg_headers config) ∅);
             retryConfig :=
               {| maxRetries :=
                    retry_field (cfg_retry config) rc_maxRetries DEFAULT_MAX_RETRIES;
                  baseDelayMs :=
                    retry_field (cfg_retry config) rc_baseDelayMs DEFAULT_BASE_DELAY_MS;
                  maxDelayMs :=
                    retry_field (cfg_retry config) rc_maxDelayMs DEFAULT_MAX_DELAY_MS |} |}
  end.

(** ** Backoff and classification *)

(** [getRetryDelay], with the value [u] drawn from [Math.random()]. *)
Definition getRetryDelay (c : HttpClient) (attempt : Z) (u : Q) : Z :=
  let exponentialDelay :=
    double_mul (baseDelayMs (retryConfig c)) (Math_pow2 attempt) in
  let cappedDelay := Qmin exponentialDelay (maxDelayMs (retryConfig c)) in
  let jitter :=
    double_mul (double_mul cappedDelay 0.25) (double_sub (double_mul u 2) 1) in
  Math_round (double_add cappedDelay jitter).

Definition networkErrors : list string :=
  ["ECONNRESET"; "ECONNREFUSED"; "ETIMEDOUT"; "ENOTFOUND"; "EAI_AGAIN"].

(** [isRetryableError(error, statusCode)]; [error = None] is the literal
    [null], [statusCode = None] the omitted argument. *)
Definition isRetryableError (error : option Thrown) (status : option Z) : bool :=
  if match status with
     | Some s => negb (s =? 0) && (500 <=? s)
     | None => false
     end
  then true
  else if match status with Some s => s =? 429 | None => false end
  then true
  else
    match error ≫= as_Error with
    | Some (name, msg) =>
      existsb (fun e => includes msg e) networkErrors
      || (name =? "AbortError")%string
    | None => false
    end.

(** ** The runtime: transport, responses, observable effects *)

Inductive Method : Type := GET | POST | PUT | DELETE.

Record Blob : Type := mkBlob {
  blob_type : string;
  blob_data : string
}.

(** The [body] handed to [fetch]: [undefined], a string, or a reference to
    a [FormData] object of the store. *)
Inductive Body : Type :=
| BodyAbsent
| BodyText (s : string)
| BodyForm (id : nat).

(** The arguments of one [fetch] call.  [req_abortAfter] is the delay
    after which the [AbortController] whose signal is passed aborts. *)
Record FetchRequest : Type := mkFetchRequest {
  req_url : string;
  req_method : Method;
  req_headers : gmap string string;
  req_body : Body;
  req_abortAfter : Q
}.

(** A [Response]: [resp_headers] is keyed by lower-case header names,
    [json] is what [response.json()] resolves to, [None] when it rejects. *)
Record Response : Type := mkResponse {
  status : Z;
  resp_headers : gmap string string;
  json : option JsValue
}.

(** [response.ok]: the status is in the range 200-299. *)
Definition ok (r : Response) : bool := (200 <=? status r) && (status r <=? 299).

Inductive FetchResult : Type :=
| Resolved (r : Response)
| Rejected (t : Thrown).

Inductive Event : Type :=
| EvFormData (id : nat)
| EvFetch (req : FetchRequest)
| EvJson
| EvSleep (ms : Z).

(** [forms] is the store of [FormData] objects, addressed by position;
    [trace] lists the effects in the order they happened. *)
Record World : Type := mkWorld {
  fetchCalls : nat;
  randomCalls : nat;
  forms : list (list (string * Blob));
  trace : list Event
}.

Definition log (ev : Event) (w : World) : World :=
  mkWorld (fetchCalls w) (randomCalls w) (forms w) (trace w ++ [ev]).

(** The world once one more transport call, with arguments [req], has
    been issued, and once one more random number has been drawn. *)
Definition after_fetch (req : FetchRequest) (w : World) : World :=
  mkWorld (S (fetchCalls w)) (randomCalls w) (forms w) (trace w ++ [EvFetch req]).

Definition after_random (w : World) : World :=
  mkWorld (fetchCalls w) (S (randomCalls w)) (forms w) (trace w).

(** ** A state and exception monad *)

Inductive Completion (A : Type) : Type :=
| Normal (a : A)
| Abrupt (t : Thrown).
Arguments Normal {A} a.
Arguments Abrupt {A} t.

Definition M (A : Type) : Type := World -> Completion A * World.

Definition ret {A} (a : A) : M A := fun w => (Normal a, w).

Definition throw {A} (t : Thrown) : M A := fun w => (Abrupt t, w).

Definition bind {A B} (m : M A) (k : A -> M B) : M B :=
  fun w =>
    match m w with
    | (Normal a, w') => k a w'
    | (Abrupt t, w') => (Abrupt t, w')
    end.

(** [try { m } catch (error) { handler error }]. *)
Definition try_catch {A} (m : M A) (handler : Thrown -> M A) : M A :=
  fun w =>
    match m w with
    | (Normal a, w') => (Normal a, w')
    | (Abrupt t, w') => handler t w'
    end.

Declare Scope js_scope.
Delimit Scope js_scope with js.
Notation "x <- m ;; k" := (bind m (fun x => k))
  (at level 100, m at next level, right associativity) : js_scope.
Notation "m ;;; k" := (bind m (fun _ => k))
  (at level 100, right associativity) : js_scope.

(** ** Per-call options *)

Record RequestOptions : Type := mkRequestOptions {
  opt_method : option Method;
  opt_body : JsValue;
  opt_headers : option (gmap string string);
  opt_timeout : option Q;
  opt_noRetry : option bool
}.

(** [options = {}]. *)
Definition no_options : RequestOptions :=
  mkRequestOptions None JUndefined None None None.

(** What one iteration of the attempt loop ends in, when it does not
    throw: [continue] (with the [lastError] it assigned) or [return]. *)
Inductive LoopStep : Type :=
| Continue (lastError : ChaindocError)
| Return (v : JsValue).

(** The observations made on a trace. *)
Definition fetch_requests (tr : list Event) : list FetchRequest :=
  omap (fun ev => match ev with EvFetch req => Some req | _ => None end) tr.

Definition sleeps (tr : list Event) : list Z :=
  omap (fun ev => match ev with EvSleep ms => Some ms | _ => None end) tr.

Definition json_decodes (tr : list Event) : nat :=
  length (omap (fun ev => match ev with EvJson => Some tt | _ => None end) tr).

(** ** HttpClient.request and HttpClient.uploadFiles *)

Section Runtime.

(** The global [fetch]: what the [n]-th call of a run resolves to or
    rejects with, given its arguments. *)
Variable fetch_impl : nat -> FetchRequest -> FetchResult.

(** [Math.random]: the value of the [n]-th draw of a run. *)
Variable Math_random : nat -> Q.

(** [JSON.stringify], on the values it serializes. *)
Variable JSON_stringify : JsValue -> string.

Local Open Scope js_scope.

(** [await fetch(url, init)]. *)
Definition fetch (req : FetchRequest) : M Response :=
  fun w =>
    match fetch_impl (fetchCalls w) req with
    | Resolved r => (Normal r, after_fetch req w)
    | Rejected t => (Abrupt t, after_fetch req w)
    end.

(** [await response.json().catch(() => undefined)]. *)
Definition json_or_undefined (r : Response) : M JsValue :=
  fun w => (Normal (nullish (json r) JUndefined), log EvJson w).

(** [Math.random()]. *)
Definition random : M Q :=
  fun w => (Normal (Math_random (randomCalls w)), after_random w).

(** [await this.sleep(ms)]. *)
Definition sleep (ms : Z) : M unit :=
  fun w => (Normal tt, log (EvSleep ms) w).

(** [new FormData()]. *)
Definition new_FormData : M nat :=
  fun w =>
    let id := length (forms w) in
    (Normal id,
     mkWorld (fetchCalls w) (randomCalls w) (forms w ++ [[]])
             (trace w ++ [EvFormData id])).

(** [formData.append(name, file)]. *)
Definition FormData_append (id : nat) (name : string) (file : Blob) : M unit :=
  fun w =>
    (Normal tt,
     mkWorld (fetchCalls w) (randomCalls w)
             (alter (fun entries => (entries ++ [(name, file)])%list) id (forms w))
             (trace w)).

(** [files.forEach(f)]. *)
Fixpoint forEach {A} (xs : list A) (f : A -> M unit) : M unit :=
  match xs with
  | [] => ret tt
  | x :: rest => f x ;;; forEach rest f
  end.

(** [await this.sleep(this.getRetryDelay(attempt))]. *)
Definition backoff (c : HttpClient) (attempt : Z) : M unit :=
  u <- random ;;
  sleep (getRetryDelay c attempt u).

(** The message of the error built for a non-ok response: the
    [message] property of the decoded payload when that is a string,
    else [failed] followed by the status.  (When the test succeeds
    [data.message] is a string, so the last case of the inner match is
    never taken.) *)
Definition errorMessage (failed : string) (data : JsValue) (st : Z) : string :=
  if truthy data
     && (typeof data =? "object")%string
     && has_prop "message" data
     && (typeof (nullish (get_prop "message" data) JUndefined) =? "string")%string
  then
    match get_prop "message" data with
    | Some (JString s) => s
    | _ => EmptyString
    end
  else failed +:+ pretty st.

(** [response.status === 204 ||
    response.headers.get("content-length") === "0"]. *)
Definition is_empty (resp : Response) : bool :=
  (status resp =? 204)
  || bool_decide (resp_headers resp !! "content-length" = Some "0").

(** [contentType?.includes("application/json")] as a condition. *)
Definition indicates_json (contentType : option string) : bool :=
  match contentType with
  | Some ct => includes ct "application/json"
  | None => false
  end.

(** The statements of the [try] block that follow the transport call
    (client.ts lines 137-177 in [request], 278-316 in [uploadFiles]).
    The two methods differ there in one string literal, [failed]. *)
Definition on_response (c : HttpClient) (failed : string)
    (maxAttempts attempt : Z) (resp : Response) : M LoopStep :=
  if is_empty resp then ret (Return JUndefined)
  else
    let contentType := resp_headers resp !! "content-type" in
    data <- (if indicates_json contentType
             then json_or_undefined resp
             else ret JUndefined) ;;
    if negb (ok resp) then
      let isRetryable := isRetryableError None (Some (status resp)) in
      let lastError :=
        mkChaindocError (errorMessage failed data (status resp))
                        (Some (status resp)) data isRetryable in
      if isRetryable && (attempt <? maxAttempts - 1) then
        backoff c attempt ;;;
        ret (Continue lastError)
      else throw (ThrownChaindoc lastError)
    else ret (Return data).

(** The [catch] block (lines 178-210 and 317-349); the two methods
    differ in the message used for an abort, [timed_out]. *)
Definition on_error (c : HttpClient) (timed_out : string)
    (maxAttempts attempt : Z) (error : Thrown) : M LoopStep :=
  match error with
  | ThrownChaindoc e =>
    if negb (isRetryable e) || (maxAttempts - 1 <=? attempt) then throw error
    else
      backoff c attempt ;;;
      ret (Continue e)
  | _ =>
    let isRetryable := isRetryableError (Some error) None in
    match as_Error error with
    | Some (name, msg) =>
      let message := if (name =? "AbortError")%string then timed_out else msg in
      let lastError := mkChaindocError message None JUndefined isRetryable in
      if isRetryable && (attempt <? maxAttempts - 1) then
        backoff c attempt ;;;
        ret (Continue lastError)
      else throw (ThrownChaindoc lastError)
    | None =>
      throw (ThrownChaindoc (ChaindocError_of_message "Unknown error occurred"))
    end
  end.

(** [for (let attempt = 0; attempt < maxAttempts; attempt++) body]
    followed by [throw lastError ?? new ChaindocError(exhausted)].
    [remaining] counts the iterations that are left, so that the guard
    [attempt < maxAttempts] holds exactly when it is a successor. *)
Fixpoint attempts (body : Z -> M LoopStep) (exhausted : string)
    (remaining : nat) (attempt : Z) (lastError : option ChaindocError)
    : M JsValue :=
  match remaining with
  | O =>
    throw (ThrownChaindoc (nullish lastError (ChaindocError_of_message exhausted)))
  | S n =>
    step <- body attempt ;;
    match step with
    | Continue e => attempts body exhausted n (attempt + 1) (Some e)
    | Return v => ret v
    end
  end.

(** The arguments [request] passes to [fetch]. *)
Definition request_init (c : HttpClient) (endpoint : string)
    (options : RequestOptions) : FetchRequest :=
  {| req_url := baseUrl c +:+ endpoint;
     req_method := nullish (opt_method options) GET;
     req_headers := spread (defaultHeaders c) (nullish (opt_headers options) ∅);
     req_body :=
       if truthy (opt_body options)
       then BodyText (JSON_stringify (opt_body options))
       else BodyAbsent;
     req_abortAfter := nullish (opt_timeout options) (timeout c) |}.

(** The [try] / [catch] statement of both methods: the transport call
    with arguments [req], then [on_response], under [on_error]. *)
Definition guarded_fetch (c : HttpClient) (failed timed_out : string)
    (maxAttempts attempt : Z) (req : FetchRequest) : M LoopStep :=
  try_catch
    (resp <- fetch req ;;
     on_response c failed maxAttempts attempt resp)
    (on_error c timed_out maxAttempts attempt).

(** One iteration of the loop of [request]. *)
Definition request_attempt (c : HttpClient) (endpoint : string)
    (options : RequestOptions) (maxAttempts attempt : Z) : M LoopStep :=
  guarded_fetch c "Request failed with status " "Request timeout"
                maxAttempts attempt (request_init c endpoint options).

Definition request (c : HttpClient) (endpoint : string)
    (options : RequestOptions) : M JsValue :=
  let maxAttempts :=
    if nullish (opt_noRetry options) false then 1
    else maxRetries (retryConfig c) + 1 in
  attempts (request_attempt c endpoint options maxAttempts)
           "Request failed after retries"
           (Z.to_nat maxAttempts) 0 None.

(** [{ ...options, method }] and [{ ...options, method, body }]. *)
Definition with_method (options : RequestOptions) (m : Method) : RequestOptions :=
  mkRequestOptions (Some m) (opt_body options) (opt_headers options)
                   (opt_timeout options) (opt_noRetry options).

Definition with_method_body (options : RequestOptions) (m : Method)
    (body : JsValue) : RequestOptions :=
  mkRequestOptions (Some m) body (opt_headers options)
                   (opt_timeout options) (opt_noRetry options).

Definition get (c : HttpClient) (endpoint : string) (options : RequestOptions) :=
  request c endpoint (with_method options GET).

Definition post (c : HttpClient) (endpoint : string) (body : JsValue)
    (options : RequestOptions) :=
  request c endpoint (with_method_body options POST body).

Definition put (c : HttpClient) (endpoint : string) (body : JsValue)
    (options : RequestOptions) :=
  request c endpoint (with_method_body options PUT body).

Definition delete (c : HttpClient) (endpoint : string) (options : RequestOptions) :=
  request c endpoint (with_method options DELETE).

(** The arguments [uploadFiles] passes to [fetch]. *)
Definition upload_init (c : HttpClient) (endpoint : string) (formData : nat)
    : FetchRequest :=
  {| req_url := baseUrl c +:+ endpoint;
     req_method := POST;
     req_headers := {[ "Authorization" := "Bearer " +:+ secretKey c ]};
     req_body := BodyForm formData;
     req_abortAfter := (timeout c * 2)%Q |}.

(** One iteration of the loop of [uploadFiles]. *)
Definition upload_attempt (c : HttpClient) (endpoint : string)
    (files : list Blob) (fieldName : string) (maxAttempts attempt : Z)
    : M LoopStep :=
  formData <- new_FormData ;;
  forEach files (fun file => FormData_append formData fieldName file) ;;;
  guarded_fetch c "Upload failed with status " "Upload timeout"
                maxAttempts attempt (upload_init c endpoint formData).

Definition uploadFiles (c : HttpClient) (endpoint : string)
    (files : list Blob) (fieldName : string) : M JsValue :=
  let maxAttempts := maxRetries (retryConfig c) + 1 in
  attempts (upload_attempt c endpoint files fieldName maxAttempts)
           "Upload failed after retries"
           (Z.to_nat maxAttempts) 0 None.

(** [Media.upload]: [uploadFiles] on the media endpoint, with the default
    field name. *)
Definition Media_upload (c : HttpClient) (files : list Blob) : M JsValue :=
  uploadFiles c "/api/v1/media/upload" files "media".

End Runtime.

(** [new HttpClient(config)] as a step of a run: the constructor throws
    or returns, and touches nothing else. *)
Definition new_HttpClient (config : ChaindocConfig) : M HttpClient :=
  match constructor config with
  | inl e => throw (ThrownChaindoc e)
  | inr c => ret c
  end.

(** ** The modules and the facade (src/modules, src/chaindoc.ts)

    The parameter objects the module methods receive are plain objects:
    they are given by the list of their properties. *)

(** A [Date], as far as [toISOString] tells dates apart: a valid date
    with its ISO string, or an invalid date. *)
Inductive Date : Type :=
| ValidDate (iso : string)
| InvalidDate.

(** [date.toISOString()]: throws a [RangeError] on an invalid date. *)
Definition toISOString (d : Date) : M string :=
  match d with
  | ValidDate iso => ret iso
  | InvalidDate => throw (ThrownError "RangeError" "Invalid time value")
  end.

(** [CreateSignatureRequestParams]: the [deadline] property and the
    properties that come before and after it in the object. *)
Record CreateSignatureRequestParams : Type := mkCreateSignatureRequestParams {
  csr_before : list (string * JsValue);
  csr_deadline : Date;
  csr_after : list (string * JsValue)
}.

Record PaginationParams : Type := mkPaginationParams {
  pageNumber : option Q;
  pageSize : option Q
}.

(** A number used as a condition: zero is falsy, as is an absent
    number.  (Numbers are rationals here; NaN is not represented.) *)
Definition truthy_number (n : option Q) : bool :=
  match n with
  | Some q => negb (Qeq_bool q 0)
  | None => false
  end.

(** [URLSearchParams]: the list of name-value pairs. *)
Definition URLSearchParams : Type := list (string * string).

(** [params.set(name, value)]: the first pair named [name] gets the
    value and the other pairs of that name go; without such a pair, a
    new one is appended. *)
Fixpoint URLSearchParams_set (name value : string) (params : URLSearchParams)
    : URLSearchParams :=
  match params with
  | [] => [(name, value)]
  | (k, v) :: rest =>
    if (k =? name)%string
    then (name, value) :: filter (fun kv => negb (fst kv =? name)%string) rest
    else (k, v) :: URLSearchParams_set name value rest
  end.

(** The bytes the form-urlencoded serializer leaves as they are: ASCII
    letters and digits, and the characters [*], [-], [.] and [_]. *)
Definition urlencoded_plain (c : ascii) : bool :=
  let n := nat_of_ascii c in
  ((48 <=? n) && (n <=? 57) || (65 <=? n) && (n <=? 90)
   || (97 <=? n) && (n <=? 122)
   || (n =? 42) || (n =? 45) || (n =? 46) || (n =? 95))%nat.

Definition hex_digit (n : nat) : ascii :=
  match String.get n "0123456789ABCDEF" with
  | Some c => c
  | None => "0"%char
  end.

(** The serialization of one byte: itself, [+] for a space, or a percent
    sign and two upper-case hexadecimal digits. *)
Definition urlencode_byte (c : ascii) : string :=
  if urlencoded_plain c then String c EmptyString
  else if (nat_of_ascii c =? 32)%nat then "+"
  else String "%" (String (hex_digit (nat_of_ascii c / 16))
                     (String (hex_digit (nat_of_ascii c mod 16)) EmptyString)).

Fixpoint urlencode (s : string) : string :=
  match s with
  | EmptyString => EmptyString
  | String c rest => urlencode_byte c +:+ urlencode rest
  end.

(** [params.toString()]. *)
Fixpoint URLSearchParams_toString (params : URLSearchParams) : string :=
  match params with
  | [] => EmptyString
  | [(k, v)] => urlencode k +:+ "=" +:+ urlencode v
  | (k, v) :: rest =>
    urlencode k +:+ "=" +:+ urlencode v +:+ "&" +:+ URLSearchParams_toString rest
  end.

(** The facade: it holds the client its modules share. *)
Record Chaindoc : Type := mkChaindoc {
  client : HttpClient
}.

(** [new Chaindoc(config)]. *)
Definition Chaindoc_constructor (config : ChaindocConfig) : ChaindocError + Chaindoc :=
  match constructor config with
  | inl e => inl e
  | inr c => inr (mkChaindoc c)
  end.

Section Modules.

Variable fetch_impl : nat -> FetchRequest -> FetchResult.
Variable Math_random : nat -> Q.
Variable JSON_stringify : JsValue -> string.

(** [String(n)] on numbers. *)
Variable Number_toString : Q -> string.

Local Open Scope js_scope.

(** [this.client.get(endpoint)], [this.client.post(endpoint, body)] and
    [this.client.put(endpoint, body)], the options being left out. *)
Definition client_get (c : HttpClient) (endpoint : string) : M JsValue :=
  get fetch_impl Math_random JSON_stringify c endpoint no_options.

Definition client_post (c : HttpClient) (endpoint : string) (body : JsValue)
    : M JsValue :=
  post fetch_impl Math_random JSON_stringify c endpoint body no_options.

Definition client_put (c : HttpClient) (endpoint : string) (body : JsValue)
    : M JsValue :=
  put fetch_impl Math_random JSON_stringify c endpoint body no_options.

(** Documents. *)
Definition Documents_create (c : HttpClient) (params : list (string * JsValue)) :=
  client_post c "/api/v1/documents" (JObject params).

Definition Documents_update (c : HttpClient) (documentId : string)
    (params : list (string * JsValue)) :=
  client_put c ("/api/v1/documents/" +:+ documentId) (JObject params).

Definition Documents_updateRights (c : HttpClient) (documentId : string)
    (params : list (string * JsValue)) :=
  client_put c ("/api/v1/documents/" +:+ documentId +:+ "/rights") (JObject params).

Definition Documents_verify (c : HttpClient) (params : list (string * JsValue)) :=
  client_post c "/api/v1/documents/verify" (JObject params).

Definition Documents_getVerificationStatus (c : HttpClient) (versionId : string) :=
  client_get c ("/api/v1/documents/versions/" +:+ versionId +:+ "/verification").

(** Signatures.  [createRequest] sends a copy of its parameters in which
    [deadline] is the ISO string of the date. *)
Definition Signatures_createRequest (c : HttpClient)
    (params : CreateSignatureRequestParams) : M JsValue :=
  iso <- toISOString (csr_deadline params) ;;
  client_post c "/api/v1/signatures/requests"
              (JObject (csr_before params ++ [("deadline", JString iso)]
                        ++ csr_after params)).

Definition Signatures_getRequestStatus (c : HttpClient) (requestId : string) :=
  client_get c ("/api/v1/signatures/requests/" +:+ requestId +:+ "/status").

(** The query string [getMyRequests] and [getSignatures] build. *)
Definition pagination_query (pagination : option PaginationParams) : string :=
  let params : URLSearchParams := [] in
  let params :=
    match pagination ≫= pageNumber with
    | Some n =>
      if truthy_number (Some n)
      then URLSearchParams_set "pageNumber" (Number_toString n) params
      else params
    | None => params
    end in
  let params :=
    match pagination ≫= pageSize with
    | Some n =>
      if truthy_number (Some n)
      then URLSearchParams_set "pageSize" (Number_toString n) params
      else params
    | None => params
    end in
  URLSearchParams_toString params.

(** [`${path}${query ? `?${query}` : ''}`]. *)
Definition with_query (path query : string) : string :=
  path +:+ (if negb (query =? EmptyString)%string then "?" +:+ query else EmptyString).

Definition Signatures_getMyRequests (c : HttpClient)
    (pagination : option PaginationParams) :=
  client_get c (with_query "/api/v1/signatures/requests" (pagination_query pagination)).

Definition Signatures_sign (c : HttpClient) (params : list (string * JsValue)) :=
  client_post c "/api/v1/signatures/sign" (JObject params).

Definition Signatures_getSignatures (c : HttpClient)
    (pagination : option PaginationParams) :=
  client_get c (with_query "/api/v1/signatures" (pagination_query pagination)).

(** Embedded sessions and KYC. *)
Definition Embedded_createSession (c : HttpClient) (params : list (string * JsValue)) :=
  client_post c "/api/v1/embedded/sessions" (JObject params).

Definition Kyc_share (c : HttpClient) (params : list (string * JsValue)) :=
  client_post c "/api/v1/kyc/share" (JObject params).

(** The two calls of the facade itself. *)
Definition getApiKeyInfo (ch : Chaindoc) := client_get (client ch) "/api/v1/me".

Definition healthCheck (ch : Chaindoc) := client_get (client ch) "/api/v1/health".

End Modules.

(** * Derived notions used in the statements *)

(** [min(baseDelay * 2^attempt, maxDelay)], the clamped delay of the
    specification, in exact arithmetic. *)
Definition cappedDelay (c : HttpClient) (attempt : Z) : Q :=
  Qmin (baseDelayMs (retryConfig c) * Qpower 2 attempt) (maxDelayMs (retryConfig c)).

(** The clamped delay as [getRetryDelay] computes it, in doubles. *)
Definition clampedDelay (c : HttpClient) (attempt : Z) : Q :=
  Qmin (double_mul (baseDelayMs (retryConfig c)) (Math_pow2 attempt))
       (maxDelayMs (retryConfig c)).

(** The value [getRetryDelay] rounds, for the clamped delay [d]. *)
Definition jittered (d u : Q) : Q :=
  double_add d (double_mul (double_mul d 0.25) (double_sub (double_mul u 2) 1)).

(** The number is a double. *)
Definition is_double (x : Q) : Prop := (binary64 x == x)%Q.

(** The delay lies in the jitter range around the clamped delay. *)
Definition in_jitter_range (c : HttpClient) (attempt : Z) (delay : Z) : Prop :=
  (0.75 * cappedDelay c attempt <= inject_Z delay
   /\ inject_Z delay <= 1.25 * cappedDelay c attempt)%Q.

(** The payload an attempt works with once a response that is not
    treated as empty has arrived: the decoded body when the content type
    indicates JSON and decoding succeeds, [undefined] otherwise. *)
Definition payload (resp : Response) : JsValue :=
  if indicates_json (resp_headers resp !! "content-type")
  then nullish (json resp) JUndefined
  else JUndefined.

(** Whether an attempt invokes [response.json()]. *)
Definition decodes (fr : FetchResult) : bool :=
  match fr with
  | Resolved resp =>
    negb (is_empty resp) && indicates_json (resp_headers resp !! "content-type")
  | Rejected _ => false
  end.

(** The error an attempt builds (or receives) for the result of its
    transport call; [None] when the attempt returns a value instead. *)
Definition failure_of (failed timed_out : string) (fr : FetchResult)
    : option ChaindocError :=
  match fr with
  | Resolved resp =>
    if is_empty resp then None
    else if ok resp then None
    else Some (mkChaindocError
                 (errorMessage failed (payload resp) (status resp))
                 (Some (status resp)) (payload resp)
                 (isRetryableError None (Some (status resp))))
  | Rejected (ThrownChaindoc e) => Some e
  | Rejected t =>
    match as_Error t with
    | Some (name, msg) =>
      Some (mkChaindocError
              (if (name =? "AbortError")%string then timed_out else msg)
              None JUndefined (isRetryableError (Some t) None))
    | None => Some (ChaindocError_of_message "Unknown error occurred")
    end
  end.

(** The value an attempt returns when it builds no error. *)
Definition value_of (fr : FetchResult) : JsValue :=
  match fr with
  | Resolved resp => if is_empty resp then JUndefined else payload resp
  | Rejected _ => JUndefined
  end.

(** A transport result after which the loop goes on, budget allowing. *)
Definition retryable_failure (failed timed_out : string) (fr : FetchResult) : bool :=
  match failure_of failed timed_out fr with
  | Some e => isRetryable e
  | None => false
  end.

(** What one [try] / [catch] statement does from world [w] when its
    transport call has the result [fr]: the step the loop takes (or the
    error thrown) and the world it leaves.  [u] is the next value of the
    random source. *)
Definition attempt_result (c : HttpClient) (failed timed_out : string)
    (maxAttempts attempt : Z) (req : FetchRequest) (fr : FetchResult) (u : Q)
    (w : World) : Completion LoopStep * World :=
  let w1 := after_fetch req w in
  let w2 := if decodes fr then log EvJson w1 else w1 in
  match failure_of failed timed_out fr with
  | None => (Normal (Return (value_of fr)), w2)
  | Some e =>
    if isRetryable e && (attempt <? maxAttempts - 1)
    then (Normal (Continue e),
          log (EvSleep (getRetryDelay c attempt u)) (after_random w2))
    else (Abrupt (ThrownChaindoc e), w2)
  end.

(** The entries of the form [uploadFiles] builds: one per file, all
    under the same field name. *)
Definition form_entries (fieldName : string) (files : list Blob)
    : list (string * Blob) :=
  map (fun file => (fieldName, file)) files.

(** The world once an attempt of [uploadFiles] has built its form: a new
    object at the end of the store, holding the entries. *)
Definition upload_prep (fieldName : string) (files : list Blob) (w : World) : World :=
  mkWorld (fetchCalls w) (randomCalls w)
          (forms w ++ [form_entries fieldName files])
          (trace w ++ [EvFormData (length (forms w))]).

(** [maxAttempts] in [request]: the number of attempts it allows itself. *)
Definition request_budget (c : HttpClient) (options : RequestOptions) : Z :=
  if nullish (opt_noRetry options) false then 1
  else maxRetries (retryConfig c) + 1.

(** The [message] property of a decoded payload, when it is a string. *)
Definition message_field (data : JsValue) : option string :=
  match get_prop "message" data with
  | Some (JString s) => Some s
  | _ => None
  end.

(** The message of a status error as the specification words it: the
    [message] field of the response body when present and a string, else
    the generic message, spelled as the specification spells it. *)
Definition stated_status_message (resp : Response) : string :=
  match json resp ≫= message_field with
  | Some m => m
  | None => "request failed with status " +:+ pretty (status resp)
  end.

(** The message of a timeout error, spelled as the specification spells
    it. *)
Definition stated_timeout_message : string := "request timeout".

(** How a call ends when the attempt that decides it has the transport
    result [fr]: with the value of the attempt, or with its error. *)
Definition outcome_of (failed timed_out : string) (fr : FetchResult)
    : Completion JsValue :=
  match failure_of failed timed_out fr with
  | None => Normal (value_of fr)
  | Some e => Abrupt (ThrownChaindoc e)
  end.

(** The world an attempt leaves when it does not sleep. *)
Definition after_attempt (req : FetchRequest) (fr : FetchResult) (w : World) : World :=
  if decodes fr then log EvJson (after_fetch req w) else after_fetch req w.

(** How many of [n] successive attempts invoke [response.json()], the
    first of them making the transport call number [first] with the
    arguments [reqs k]. *)
Fixpoint decodes_count (fetch_impl : nat -> FetchRequest -> FetchResult)
    (reqs : nat -> FetchRequest) (first k n : nat) : nat :=
  match n with
  | O => 0%nat
  | S n' =>
    ((if decodes (fetch_impl first (reqs k)) then 1 else 0)
     + decodes_count fetch_impl reqs (S first) (S k) n')%nat
  end.

(** The delays of [n] successive backoffs, the first before attempt
    [attempt + 1], the random source being at its draw number [draw]. *)
Definition backoff_delays (Math_random : nat -> Q) (c : HttpClient)
    (attempt : Z) (draw : nat) (n : nat) : list Z :=
  map (fun i => getRetryDelay c (attempt + Z.of_nat i) (Math_random (draw + i)%nat))
      (seq 0 n).

(** A string that ends with a slash. *)
Definition ends_with_slash (s : string) : Prop := exists b, s = b +:+ "/".

(** The headers every request of a client carries unless the
    configuration or the call overrides them. *)
Definition builtin_header (key name : string) : option string :=
  if (name =? "Content-Type")%string then Some "application/json"
  else if (name =? "Authorization")%string then Some ("Bearer " +:+ key)
  else None.

(** The request a module method hands to the transport through [get],
    [post] or [put] without options: the headers and the timeout are the
    defaults of the client. *)
Definition json_call (c : HttpClient) (m : Method) (path : string) (body : Body)
    : FetchRequest :=
  {| req_url := baseUrl c +:+ path;
     req_method := m;
     req_headers := defaultHeaders c;
     req_body := body;
     req_abortAfter := timeout c |}.

(** Between the worlds [w] and [w'] the transport was called with the
    arguments [r] only, at most [limit] times, and at least once when
    [limit] is positive. *)
Definition issues_only (w w' : World) (r : FetchRequest) (limit : Z) : Prop :=
  exists n : nat,
    (n <= Z.to_nat limit)%nat
    /\ (0 < limit -> (1 <= n)%nat)
    /\ fetch_requests (trace w') = fetch_requests (trace w) ++ replicate n r.

(** * Inputs used in the examples *)

(** A configuration with a valid key and [retry.maxRetries = r]. *)
Definition demo_config (r : Z) : ChaindocConfig :=
  mkChaindocConfig (Some "sk_test_key") None None None
                   (Some (mkRetryConfig (Some r) None None)) None.

(** The client built from [demo_config r]. *)
Definition demo_client (r : Z) : HttpClient :=
  {| baseUrl := "https://api.chaindoc.io";
     secretKey := "sk_test_key";
     timeout := 30000;
     defaultHeaders :=
       <["Content-Type" := "application/json"]>
         (<["Authorization" := "Bearer sk_test_key"]> ∅);
     retryConfig := mkRetryPolicy r 1000 10000 |}.

(** A client whose backoff starts at 3 ms. *)
Definition short_delay_client : HttpClient :=
  {| baseUrl := "https://api.chaindoc.io";
     secretKey := "sk_test_key";
     timeout := 30000;
     defaultHeaders := ∅;
     retryConfig := mkRetryPolicy 3 3 10000 |}.

(** A client with three retries and the given base and maximal delays. *)
Definition custom_policy_client (base max : Q) : HttpClient :=
  {| baseUrl := "https://api.chaindoc.io";
     secretKey := "sk_test_key";
     timeout := 30000;
     defaultHeaders := ∅;
     retryConfig := mkRetryPolicy 3 base max |}.

(** A configuration that selects the staging environment. *)
Definition staging_config : ChaindocConfig :=
  mkChaindocConfig (Some "sk_test_key") (Some staging) None None None None.

(** A configuration whose key lacks the prefix. *)
Definition bad_key_config : ChaindocConfig :=
  mkChaindocConfig (Some "pk_test_key") None None None None None.

Definition empty_world : World := mkWorld 0 0 [] [].

(** A transport that always ends the same way, a random source that
    always yields one half (no jitter), and a serializer stub. *)
Definition always (fr : FetchResult) : nat -> FetchRequest -> FetchResult :=
  fun _ _ => fr.

Definition no_jitter : nat -> Q := fun _ => (1 # 2)%Q.

Definition stub_stringify : JsValue -> string := fun _ => "{}".

Definition unavailable : Response :=
  mkResponse 503 {[ "content-type" := "application/json" ]}
             (Some (JObject [("message", JString "Service unavailable")])).

Definition not_found_json : Response :=
  mkResponse 404 {[ "content-type" := "application/json; charset=utf-8" ]}
             (Some (JObject [("message", JString "Document not found")])).

(** The same payload, served as plain text. *)
Definition not_found_plain : Response :=
  mkResponse 404 {[ "content-type" := "text/plain" ]}
             (Some (JObject [("message", JString "Document not found")])).

(** A 404 without a body that decodes. *)
Definition not_found_bare : Response :=
  mkResponse 404 {[ "content-type" := "application/json" ]} None.

(** A server error announced with an empty body. *)
Definition server_error_empty : Response :=
  mkResponse 500 {[ "content-length" := "0" ]} None.

Definition no_content : Response := mkResponse 204 ∅ None.

(** A 503 announced with an empty body. *)
Definition unavailable_empty : Response :=
  mkResponse 503 {[ "content-length" := "0" ]} None.

(** A 204 that carries a JSON body all the same. *)
Definition no_content_with_body : Response :=
  mkResponse 204 {[ "content-type" := "application/json" ]}
             (Some (JObject [("success", JBool true)])).

(** A transport that answers 503 with a JSON body once, then 204. *)
Definition fails_once_then_no_content : nat -> FetchRequest -> FetchResult :=
  fun n _ =>
    if (n <? 1)%nat then Resolved unavailable else Resolved no_content_with_body.

Definition aborted : FetchResult :=
  Rejected (ThrownError "AbortError" "This operation was aborted").


Definition two_files : list Blob :=
  [mkBlob "application/pdf" "%PDF-1.7"; mkBlob "image/png" "PNG"].

Definition server_error : Response :=
  mkResponse 500 {[ "content-type" := "application/json" ]}
             (Some (JObject [("message", JString "Internal error")])).

Definition ok_payload : Response :=
  mkResponse 200 {[ "content-type" := "application/json" ]}
             (Some (JObject [("success", JBool true)])).

(** A transport that fails twice with status 500, then answers 200. *)
Definition fails_twice : nat -> FetchRequest -> FetchResult :=
  fun n _ => if (n <? 2)%nat then Resolved server_error else Resolved ok_payload.

(** A random source within [0, 1) that changes with every draw. *)
Definition varying_jitter : nat -> Q :=
  fun n => (1 # Pos.of_nat (n + 2))%Q.

Definition decimal : Q -> string := fun q => pretty (Qnum q).

(** A configuration with a base address that ends with a slash and a
    header of its own. *)
Definition custom_config : ChaindocConfig :=
  mkChaindocConfig (Some "sk_test_key") None None
                   (Some {[ "X-Tenant" := "acme" ]}) None
                   (Some "https://proxy.example.com/").

Definition signature_request : CreateSignatureRequestParams :=
  mkCreateSignatureRequestParams
    [("versionId", JString "v1")] (ValidDate "2025-12-31T00:00:00.000Z")
    [("embeddedFlow", JBool true)].

(** The client built from [custom_config]. *)
Definition custom_client : HttpClient :=
  {| baseUrl := "https://proxy.example.com";
     secretKey := "sk_test_key";
     timeout := 30000;
     defaultHeaders :=
       spread (<["Content-Type" := "application/json"]>
                 (<["Authorization" := "Bearer sk_test_key"]> ∅))
              {[ "X-Tenant" := "acme" ]};
     retryConfig := mkRetryPolicy 3 1000 10000 |}.

(** Options whose headers replace the Authorization header. *)
Definition impersonating : RequestOptions :=
  mkRequestOptions None JUndefined
                   (Some {[ "Authorization" := "Bearer sk_other_key" ]}) None None.

(** A page number of zero with a page size of twenty. *)
Definition first_page : PaginationParams := mkPaginationParams (Some 0%Q) (Some 20%Q).

Definition undated_request : CreateSignatureRequestParams :=
  mkCreateSignatureRequestParams [("versionId", JString "v1")] InvalidDate [].

(** * Properties *)

(** ** Backoff delay *)

(** *** Powers of two *)

Lemma pow2_pos e : (0 < pow2 e)%Q.
Proof. unfold pow2. apply Qpower_0_lt. reflexivity. Qed.

Lemma pow2_add a b : (pow2 (a + b) == pow2 a * pow2 b)%Q.
Proof. unfold pow2. apply Qpower_plus. discriminate. Qed.

Lemma pow2_nonneg_Z k : 0 <= k -> (pow2 k == inject_Z (2 ^ k))%Q.
Proof.
  intros H. unfold pow2. rewrite Zpower_Qpower by exact H. reflexivity.
Qed.

Lemma pow2_ge_1 k : 0 <= k -> (1 <= pow2 k)%Q.
Proof.
  intros H. rewrite pow2_nonneg_Z by exact H.
  change 1%Q with (inject_Z 1). rewrite <- Zle_Qle.
  pose proof (Z.pow_pos_nonneg 2 k). lia.
Qed.

Lemma pow2_le a b : a <= b -> (pow2 a <= pow2 b)%Q.
Proof.
  intros H. replace b with (a + (b - a)) by lia. rewrite pow2_add.
  pose proof (pow2_pos a). pose proof (pow2_ge_1 (b - a) ltac:(lia)). nra.
Qed.

Lemma pow2_S a : (pow2 (a + 1) == 2 * pow2 a)%Q.
Proof. rewrite pow2_add. change (pow2 1) with 2%Q. ring. Qed.

Lemma pow2_lt a b : a < b -> (pow2 a < pow2 b)%Q.
Proof.
  intros H. pose proof (pow2_le (a + 1) b ltac:(lia)) as Hle.
  rewrite pow2_S in Hle. pose proof (pow2_pos a). lra.
Qed.

Lemma pow2_lt_inv a b : (pow2 a < pow2 b)%Q -> a < b.
Proof.
  intros H. destruct (Z_lt_le_dec a b) as [Hlt | Hle]; [exact Hlt |].
  pose proof (pow2_le b a Hle). lra.
Qed.

Lemma pow2_le_inv a b : (pow2 a <= pow2 b)%Q -> a <= b.
Proof.
  intros H. destruct (Z_lt_le_dec b a) as [Hlt | Hle]; [| exact Hle].
  pose proof (pow2_lt b a Hlt). lra.
Qed.

Lemma pow2_sub a b : (pow2 (a - b) == pow2 a / pow2 b)%Q.
Proof.
  pose proof (pow2_pos b) as Hb.
  assert (H : (pow2 a == pow2 (a - b) * pow2 b)%Q).
  { rewrite <- pow2_add. replace (a - b + b) with a by lia. reflexivity. }
  rewrite H. field. lra.
Qed.

(** *** The binary exponent *)

Lemma ilog2_rough (x : Q) :
  (0 < x)%Q ->
  let k0 := Z.log2 (Qnum x) - Z.log2 (Zpos (Qden x)) in
  (pow2 (k0 - 1) <= x /\ x < pow2 (k0 + 1))%Q.
Proof.
  intros Hx k0. destruct x as [n d].
  assert (Hn : 0 < n) by (unfold Qlt in Hx; simpl in Hx; lia).
  simpl in k0.
  pose proof (Z.log2_spec n Hn) as [Hn1 Hn2].
  pose proof (Z.log2_spec (Zpos d) ltac:(lia)) as [Hd1 Hd2].
  pose proof (Z.log2_nonneg n) as Hln.
  pose proof (Z.log2_nonneg (Zpos d)) as Hld.
  rewrite Z.pow_succ_r in Hn2, Hd2 by assumption.
  set (ln := Z.log2 n) in *. set (ld := Z.log2 (Zpos d)) in *.
  assert (HA : (0 < inject_Z (2 ^ ln))%Q).
  { change 0%Q with (inject_Z 0). rewrite <- Zlt_Qlt. apply Z.pow_pos_nonneg; lia. }
  assert (HB : (0 < inject_Z (2 ^ ld))%Q).
  { change 0%Q with (inject_Z 0). rewrite <- Zlt_Qlt. apply Z.pow_pos_nonneg; lia. }
  assert (Hk0 : (pow2 k0 == inject_Z (2 ^ ln) / inject_Z (2 ^ ld))%Q).
  { unfold k0. rewrite pow2_sub, !pow2_nonneg_Z by assumption. reflexivity. }
  assert (Hlo : (pow2 (k0 - 1) == pow2 k0 / 2)%Q).
  { rewrite pow2_sub. reflexivity. }
  rewrite Hlo, pow2_S, Hk0. rewrite (Qmake_Qdiv n d).
  assert (HD : (0 < inject_Z (Zpos d))%Q) by reflexivity.
  rewrite Zle_Qle in Hn1, Hd1. rewrite Zlt_Qlt in Hn2, Hd2.
  rewrite inject_Z_mult in Hn2, Hd2. change (inject_Z 2) with 2%Q in *.
  set (A := inject_Z (2 ^ ln)) in *. set (B := inject_Z (2 ^ ld)) in *.
  set (N := inject_Z n) in *. set (D := inject_Z (Zpos d)) in *.
  split.
  - apply Qle_shift_div_l; [exact HD |].
    assert (E : (A / B / 2 * D == (A * D) / (2 * B))%Q) by (field; lra).
    rewrite E. apply Qle_shift_div_r; [lra |]. nra.
  - apply Qlt_shift_div_r; [exact HD |].
    assert (E : (2 * (A / B) * D == (2 * A * D) / B)%Q) by (field; lra).
    rewrite E. apply Qlt_shift_div_l; [lra |]. nra.
Qed.

Lemma ilog2_spec (x : Q) :
  (0 < x)%Q -> (pow2 (ilog2 x) <= x /\ x < pow2 (ilog2 x + 1))%Q.
Proof.
  intros Hx. pose proof (ilog2_rough x Hx) as [Hlo Hhi]. unfold ilog2.
  set (k0 := Z.log2 (Qnum x) - Z.log2 (Zpos (Qden x))) in *.
  destruct (Qle_bool (pow2 k0) x) eqn:E.
  - apply Qle_bool_iff in E. split; assumption.
  - split; [exact Hlo |]. replace (k0 - 1 + 1) with k0 by lia.
    apply Qnot_le_lt. intros H. apply Qle_bool_iff in H. congruence.
Qed.

Lemma ilog2_unique (x : Q) (k : Z) :
  (pow2 k <= x)%Q -> (x < pow2 (k + 1))%Q -> ilog2 x = k.
Proof.
  intros Hlo Hhi.
  assert (Hx : (0 < x)%Q) by (pose proof (pow2_pos k); lra).
  pose proof (ilog2_spec x Hx) as [Hl Hh].
  assert (ilog2 x < k + 1) by (apply pow2_lt_inv; lra).
  assert (k < ilog2 x + 1) by (apply pow2_lt_inv; lra).
  lia.
Qed.

Lemma ilog2_proper (x y : Q) : (0 < x)%Q -> (x == y)%Q -> ilog2 x = ilog2 y.
Proof.
  intros Hx E. pose proof (ilog2_spec x Hx) as [Hl Hh].
  symmetry. apply ilog2_unique; rewrite <- E; assumption.
Qed.

Lemma ilog2_le (x y : Q) : (0 < x)%Q -> (x <= y)%Q -> ilog2 x <= ilog2 y.
Proof.
  intros Hx Hxy. pose proof (ilog2_spec x Hx) as [Hl _].
  pose proof (ilog2_spec y ltac:(lra)) as [_ Hh].
  assert (ilog2 x < ilog2 y + 1) by (apply pow2_lt_inv; lra). lia.
Qed.

(** *** Rounding to the nearest integer, ties to even *)

Lemma Qfloor_bounds (s : Q) :
  (inject_Z (Qfloor s) <= s /\ s < inject_Z (Qfloor s) + 1)%Q.
Proof.
  split; [apply Qfloor_le |].
  pose proof (Qlt_floor s) as H. rewrite inject_Z_plus in H. exact H.
Qed.

Lemma round_half_even_bounds (s : Q) :
  (s - (1 # 2) <= inject_Z (round_half_even s)
   /\ inject_Z (round_half_even s) <= s + (1 # 2))%Q.
Proof.
  unfold round_half_even. pose proof (Qfloor_bounds s) as [Hl Hh].
  set (f := Qfloor s) in *.
  destruct (Qcompare_spec (s - inject_Z f) (1 # 2)) as [E | E | E];
    [destruct (Z.even f) | |];
    rewrite ?inject_Z_plus; change (inject_Z 1) with 1%Q; lra.
Qed.

Lemma round_half_even_proper (s t : Q) :
  (s == t)%Q -> round_half_even s = round_half_even t.
Proof.
  intros E. unfold round_half_even.
  assert (Hf : Qfloor s = Qfloor t) by (rewrite E; reflexivity).
  rewrite Hf.
  assert (Hc : ((s - inject_Z (Qfloor t) ?= 1 # 2) = (t - inject_Z (Qfloor t) ?= 1 # 2))%Q)
    by (rewrite E; reflexivity).
  rewrite Hc. reflexivity.
Qed.

Lemma round_half_even_Z (z : Z) : round_half_even (inject_Z z) = z.
Proof.
  unfold round_half_even. rewrite Qfloor_Z.
  destruct (Qcompare_spec (inject_Z z - inject_Z z) (1 # 2)) as [E | E | E];
    [lra | reflexivity | lra].
Qed.

Lemma round_half_even_le (s t : Q) :
  (s <= t)%Q -> round_half_even s <= round_half_even t.
Proof.
  intros H. destruct (Z_lt_le_dec (round_half_even t) (round_half_even s)) as [Hlt | Hle];
    [| exact Hle].
  pose proof (round_half_even_bounds s) as [_ Hs].
  pose proof (round_half_even_bounds t) as [Ht _].
  assert (H1 : (inject_Z (round_half_even t) + 1 <= inject_Z (round_half_even s))%Q).
  { change 1%Q with (inject_Z 1). rewrite <- inject_Z_plus, <- Zle_Qle. lia. }
  assert (E : (s == t)%Q) by lra.
  rewrite (round_half_even_proper s t E) in Hlt. lia.
Qed.

Lemma round_half_even_le_Z (s : Q) (z : Z) :
  (s <= inject_Z z)%Q -> round_half_even s <= z.
Proof.
  intros H. rewrite <- (round_half_even_Z z). apply round_half_even_le. exact H.
Qed.

Lemma round_half_even_ge_Z (s : Q) (z : Z) :
  (inject_Z z <= s)%Q -> z <= round_half_even s.
Proof.
  intros H. rewrite <- (round_half_even_Z z) at 1. apply round_half_even_le. exact H.
Qed.

(** *** Rounding a positive number to the nearest double *)

Lemma binary64_exponent_proper (x y : Q) :
  (0 < x)%Q -> (x == y)%Q -> binary64_exponent x = binary64_exponent y.
Proof.
  intros Hx E. unfold binary64_exponent. rewrite (ilog2_proper x y Hx E). reflexivity.
Qed.

Lemma binary64_exponent_le (x y : Q) :
  (0 < x)%Q -> (x <= y)%Q -> binary64_exponent x <= binary64_exponent y.
Proof.
  intros Hx H. unfold binary64_exponent. pose proof (ilog2_le x y Hx H). lia.
Qed.

Lemma round_positive_proper (x y : Q) :
  (0 < x)%Q -> (x == y)%Q -> (round_positive x == round_positive y)%Q.
Proof.
  intros Hx E. unfold round_positive.
  rewrite (binary64_exponent_proper x y Hx E).
  rewrite (round_half_even_proper (x / pow2 (binary64_exponent y))
             (y / pow2 (binary64_exponent y))) by (rewrite E; reflexivity).
  reflexivity.
Qed.

Lemma round_positive_nonneg (x : Q) : (0 < x)%Q -> (0 <= round_positive x)%Q.
Proof.
  intros Hx. unfold round_positive.
  pose proof (pow2_pos (binary64_exponent x)) as Hp.
  assert (0 <= round_half_even (x / pow2 (binary64_exponent x))).
  { apply round_half_even_ge_Z. change (inject_Z 0) with 0%Q.
    apply Qle_shift_div_l; [exact Hp | lra]. }
  assert ((0 <= inject_Z (round_half_even (x / pow2 (binary64_exponent x))))%Q).
  { change 0%Q with (inject_Z 0). rewrite <- Zle_Qle. assumption. }
  nra.
Qed.

(** The scaled value lies below [2^53], and at or above [2^52] in the normal
    range. *)
Lemma scaled_lt (x : Q) :
  (0 < x)%Q -> (x / pow2 (binary64_exponent x) < inject_Z (2 ^ 53))%Q.
Proof.
  intros Hx. pose proof (ilog2_spec x Hx) as [_ Hh].
  pose proof (pow2_pos (binary64_exponent x)) as Hp.
  apply Qlt_shift_div_r; [exact Hp |].
  rewrite <- pow2_nonneg_Z by lia. rewrite <- pow2_add.
  eapply Qlt_le_trans; [exact Hh |]. apply pow2_le.
  unfold binary64_exponent. lia.
Qed.

Lemma scaled_ge (x : Q) :
  (0 < x)%Q -> -1074 < binary64_exponent x ->
  (inject_Z (2 ^ 52) <= x / pow2 (binary64_exponent x))%Q.
Proof.
  intros Hx He. pose proof (ilog2_spec x Hx) as [Hl _].
  pose proof (pow2_pos (binary64_exponent x)) as Hp.
  apply Qle_shift_div_l; [exact Hp |].
  rewrite <- pow2_nonneg_Z by lia. rewrite <- pow2_add.
  eapply Qle_trans; [| exact Hl]. apply pow2_le.
  unfold binary64_exponent in *. lia.
Qed.

Lemma round_positive_le (x y : Q) :
  (0 < x)%Q -> (x <= y)%Q -> (round_positive x <= round_positive y)%Q.
Proof.
  intros Hx Hxy. assert (Hy : (0 < y)%Q) by lra.
  pose proof (binary64_exponent_le x y Hx Hxy) as He.
  unfold round_positive.
  set (ex := binary64_exponent x) in *. set (ey := binary64_exponent y) in *.
  pose proof (pow2_pos ex) as Hpx. pose proof (pow2_pos ey) as Hpy.
  destruct (Z.eq_dec ex ey) as [E | N].
  - rewrite E.
    assert (H : round_half_even (x / pow2 ey) <= round_half_even (y / pow2 ey)).
    { apply round_half_even_le. apply Qle_shift_div_l; [exact Hpy |].
      assert (E' : (x / pow2 ey * pow2 ey == x)%Q) by (field; lra).
      rewrite E'. exact Hxy. }
    rewrite Zle_Qle in H. nra.
  - assert (Hlt : ex < ey) by lia.
    assert (Hm : round_half_even (x / pow2 ex) <= 2 ^ 53).
    { apply round_half_even_le_Z. apply Qlt_le_weak. apply scaled_lt. exact Hx. }
    assert (Hm' : 2 ^ 52 <= round_half_even (y / pow2 ey)).
    { apply round_half_even_ge_Z. apply scaled_ge; [exact Hy |].
      fold ey. unfold binary64_exponent in ex. lia. }
    rewrite Zle_Qle in Hm, Hm'.
    assert (Hp : (2 * pow2 ex <= pow2 ey)%Q).
    { rewrite <- pow2_S. apply pow2_le. lia. }
    assert (E53 : (inject_Z (2 ^ 53) == 2 * inject_Z (2 ^ 52))%Q) by reflexivity.
    assert (H52 : (0 < inject_Z (2 ^ 52))%Q) by reflexivity.
    set (mx := inject_Z (round_half_even (x / pow2 ex))) in *.
    set (my := inject_Z (round_half_even (y / pow2 ey))) in *.
    apply Qle_trans with (inject_Z (2 ^ 53) * pow2 ex)%Q; [nra |].
    apply Qle_trans with (inject_Z (2 ^ 52) * pow2 ey)%Q; [nra | nra].
Qed.

Lemma round_positive_fixes_lt (m e : Z) :
  0 < m < 2 ^ 53 -> -1074 <= e ->
  (round_positive (inject_Z m * pow2 e) == inject_Z m * pow2 e)%Q.
Proof.
  intros Hm He. set (f := (inject_Z m * pow2 e)%Q).
  pose proof (pow2_pos e) as Hpe.
  assert (Hm0 : (0 < inject_Z m)%Q)
    by (change 0%Q with (inject_Z 0); rewrite <- Zlt_Qlt; lia).
  assert (Hf : (0 < f)%Q) by (unfold f; nra).
  pose proof (ilog2_spec f Hf) as [Hl _].
  assert (Hk : ilog2 f < e + 53).
  { apply pow2_lt_inv. eapply Qle_lt_trans; [exact Hl |].
    rewrite pow2_add, (pow2_nonneg_Z 53) by lia. unfold f.
    assert ((inject_Z m < inject_Z (2 ^ 53))%Q) by (rewrite <- Zlt_Qlt; lia).
    nra. }
  unfold round_positive.
  assert (HE : binary64_exponent f <= e) by (unfold binary64_exponent; lia).
  set (ef := binary64_exponent f) in *.
  pose proof (pow2_pos ef) as Hpf.
  assert (Hs : (f / pow2 ef == inject_Z (m * 2 ^ (e - ef)))%Q).
  { rewrite inject_Z_mult, <- pow2_nonneg_Z by lia. rewrite pow2_sub.
    unfold f. field. lra. }
  rewrite (round_half_even_proper _ _ Hs), round_half_even_Z.
  rewrite inject_Z_mult, <- pow2_nonneg_Z by lia. rewrite pow2_sub.
  unfold f. field. lra.
Qed.

Lemma round_positive_fixes (m e : Z) :
  0 < m <= 2 ^ 53 -> -1074 <= e ->
  (round_positive (inject_Z m * pow2 e) == inject_Z m * pow2 e)%Q.
Proof.
  intros Hm He. destruct (Z.eq_dec m (2 ^ 53)) as [E | N].
  - subst m.
    assert (E : (inject_Z (2 ^ 53) * pow2 e == inject_Z (2 ^ 52) * pow2 (e + 1))%Q).
    { rewrite pow2_S. change (inject_Z (2 ^ 53)) with (2 * inject_Z (2 ^ 52))%Q. ring. }
    pose proof (pow2_pos e) as Hpe.
    assert (H53 : (0 < inject_Z (2 ^ 53))%Q) by reflexivity.
    assert (Hpos : (0 < inject_Z (2 ^ 53) * pow2 e)%Q) by nra.
    rewrite (round_positive_proper _ _ Hpos E).
    rewrite round_positive_fixes_lt by lia. symmetry. exact E.
  - apply round_positive_fixes_lt; lia.
Qed.

(** What [round_positive] returns: a mantissa of at most 53 bits at an
    exponent of at least -1074. *)
Lemma round_positive_shape (x : Q) :
  (0 < x)%Q ->
  exists m e : Z, 0 <= m <= 2 ^ 53 /\ -1074 <= e
    /\ round_positive x = (inject_Z m * pow2 e)%Q.
Proof.
  intros Hx. exists (round_half_even (x / pow2 (binary64_exponent x))),
    (binary64_exponent x).
  pose proof (pow2_pos (binary64_exponent x)) as Hp.
  repeat split.
  - apply round_half_even_ge_Z. change (inject_Z 0) with 0%Q.
    apply Qle_shift_div_l; [exact Hp | lra].
  - apply round_half_even_le_Z. apply Qlt_le_weak, scaled_lt. exact Hx.
  - unfold binary64_exponent. lia.
Qed.

(** *** Rounding to the nearest double *)

#[global] Instance binary64_Proper : Proper (Qeq ==> Qeq) binary64.
Proof.
  intros x y E. unfold binary64.
  assert (Hc : (x ?= 0)%Q = (y ?= 0)%Q) by (rewrite E; reflexivity).
  rewrite <- Hc. destruct (Qcompare_spec x 0) as [H | H | H].
  - reflexivity.
  - apply Qopp_comp. apply round_positive_proper; [lra | rewrite E; reflexivity].
  - apply round_positive_proper; assumption.
Qed.

Lemma binary64_pos (x : Q) : (0 < x)%Q -> binary64 x = round_positive x.
Proof.
  intros H. unfold binary64. destruct (Qcompare_spec x 0); [lra | lra | reflexivity].
Qed.

Lemma binary64_neg (x : Q) : (x < 0)%Q -> binary64 x = (- round_positive (- x))%Q.
Proof.
  intros H. unfold binary64. destruct (Qcompare_spec x 0); [lra | reflexivity | lra].
Qed.

Lemma binary64_zero (x : Q) : (x == 0)%Q -> binary64 x = 0%Q.
Proof.
  intros H. unfold binary64. destruct (Qcompare_spec x 0); [reflexivity | lra | lra].
Qed.

Lemma binary64_opp (x : Q) : (binary64 (- x) == - binary64 x)%Q.
Proof.
  destruct (Qcompare_spec x 0) as [H | H | H].
  - rewrite (binary64_zero x H), (binary64_zero (- x)) by lra. reflexivity.
  - rewrite (binary64_neg x H), (binary64_pos (- x)) by lra. ring.
  - rewrite (binary64_pos x H), (binary64_neg (- x)) by lra.
    apply Qopp_comp. apply round_positive_proper; [lra | ring].
Qed.

Lemma binary64_nonneg (x : Q) : (0 <= x)%Q -> (0 <= binary64 x)%Q.
Proof.
  intros H. destruct (Qcompare_spec x 0) as [E | E | E].
  - rewrite (binary64_zero x E). lra.
  - lra.
  - rewrite (binary64_pos x E). apply round_positive_nonneg. exact E.
Qed.

Lemma binary64_nonpos (x : Q) : (x <= 0)%Q -> (binary64 x <= 0)%Q.
Proof.
  intros H. pose proof (binary64_nonneg (- x) ltac:(lra)) as H'.
  rewrite binary64_opp in H'. lra.
Qed.

(** Rounding to the nearest double is monotone. *)
Lemma binary64_le (x y : Q) : (x <= y)%Q -> (binary64 x <= binary64 y)%Q.
Proof.
  intros H. destruct (Qlt_le_dec 0 x) as [Hx | Hx].
  - rewrite (binary64_pos x Hx), (binary64_pos y) by lra.
    apply round_positive_le; assumption.
  - destruct (Qlt_le_dec y 0) as [Hy | Hy].
    + rewrite (binary64_neg y Hy), (binary64_neg x) by lra.
      apply Qopp_le_compat. apply round_positive_le; lra.
    + pose proof (binary64_nonpos x Hx). pose proof (binary64_nonneg y Hy). lra.
Qed.

(** Every value [m * 2^e] with at most 53 bits of mantissa and an exponent of
    at least -1074 is a double: rounding leaves it as it is. *)
Lemma binary64_fixes (m e : Z) :
  - 2 ^ 53 <= m <= 2 ^ 53 -> -1074 <= e ->
  (binary64 (inject_Z m * pow2 e) == inject_Z m * pow2 e)%Q.
Proof.
  intros Hm He. pose proof (pow2_pos e) as Hp.
  destruct (Z.lt_trichotomy m 0) as [H | [H | H]].
  - assert (Hm0 : (inject_Z m < 0)%Q)
      by (change 0%Q with (inject_Z 0); rewrite <- Zlt_Qlt; lia).
    rewrite binary64_neg by nra.
    assert (E : (- (inject_Z m * pow2 e) == inject_Z (- m) * pow2 e)%Q)
      by (rewrite inject_Z_opp; ring).
    assert (Hpos : (0 < - (inject_Z m * pow2 e))%Q) by nra.
    rewrite (round_positive_proper _ _ Hpos E).
    rewrite round_positive_fixes by lia. rewrite inject_Z_opp. ring.
  - subst m. rewrite binary64_zero by (change (inject_Z 0) with 0%Q; ring).
    change (inject_Z 0) with 0%Q. ring.
  - assert (Hm0 : (0 < inject_Z m)%Q)
      by (change 0%Q with (inject_Z 0); rewrite <- Zlt_Qlt; lia).
    rewrite binary64_pos by nra. apply round_positive_fixes; lia.
Qed.

Lemma binary64_Z (z : Z) :
  - 2 ^ 53 <= z <= 2 ^ 53 -> (binary64 (inject_Z z) == inject_Z z)%Q.
Proof.
  intros H. pose proof (binary64_fixes z 0 H ltac:(lia)) as E.
  change (pow2 0) with 1%Q in E. rewrite Qmult_1_r in E. exact E.
Qed.

(** Rounding a double gives the same double. *)
Lemma binary64_idempotent (x : Q) : (binary64 (binary64 x) == binary64 x)%Q.
Proof.
  destruct (Qcompare_spec x 0) as [H | H | H].
  - rewrite (binary64_zero x H). reflexivity.
  - rewrite (binary64_neg x H).
    destruct (round_positive_shape (- x) ltac:(lra)) as (m & e & Hm & He & E).
    rewrite E, binary64_opp, binary64_fixes by lia. reflexivity.
  - rewrite (binary64_pos x H).
    destruct (round_positive_shape x H) as (m & e & Hm & He & E).
    rewrite E, binary64_fixes by lia. reflexivity.
Qed.


(** *** The arithmetic of [getRetryDelay] *)

Lemma getRetryDelay_unfold c attempt u :
  getRetryDelay c attempt u = Math_round (jittered (clampedDelay c attempt) u).
Proof. reflexivity. Qed.

Lemma Math_pow2_nonneg (n : Z) : (0 <= Math_pow2 n)%Q.
Proof.
  unfold Math_pow2. apply binary64_nonneg. apply Qlt_le_weak, pow2_pos.
Qed.

Lemma Math_pow2_le (n n' : Z) : n <= n' -> (Math_pow2 n <= Math_pow2 n')%Q.
Proof. intros H. unfold Math_pow2. apply binary64_le, pow2_le, H. Qed.

Lemma clampedDelay_nonneg c attempt :
  (0 <= baseDelayMs (retryConfig c))%Q ->
  (0 <= maxDelayMs (retryConfig c))%Q ->
  (0 <= clampedDelay c attempt)%Q.
Proof.
  intros Hb Hm. unfold clampedDelay.
  apply Q.min_glb; [| exact Hm].
  unfold double_mul. apply binary64_nonneg.
  apply Qmult_le_0_compat; [exact Hb | apply Math_pow2_nonneg].
Qed.

Lemma clampedDelay_le_max c attempt :
  (clampedDelay c attempt <= maxDelayMs (retryConfig c))%Q.
Proof. unfold clampedDelay. apply Q.le_min_r. Qed.

Lemma clampedDelay_is_double c attempt :
  is_double (maxDelayMs (retryConfig c)) -> is_double (clampedDelay c attempt).
Proof.
  intros Hm. unfold is_double, clampedDelay.
  set (ed := double_mul (baseDelayMs (retryConfig c)) (Math_pow2 attempt)).
  destruct (Q.min_spec ed (maxDelayMs (retryConfig c))) as [[_ E] | [_ E]];
    rewrite E.
  - unfold ed, double_mul. apply binary64_idempotent.
  - exact Hm.
Qed.

(** The factor [Math.random() * 2 - 1] lies between -1 and 1. *)
Lemma jitter_factor_bounds (u : Q) :
  (0 <= u)%Q -> (u < 1)%Q ->
  (-1 <= double_sub (double_mul u 2) 1
   /\ double_sub (double_mul u 2) 1 <= 1)%Q.
Proof.
  intros Hu0 Hu1. unfold double_sub, double_mul.
  assert (H0 : (0 <= binary64 (u * 2))%Q) by (apply binary64_nonneg; lra).
  assert (E2 : (binary64 2 == 2)%Q) by reflexivity.
  assert (E1 : (binary64 1 == 1)%Q) by reflexivity.
  assert (E1' : (binary64 (-1) == -1)%Q) by reflexivity.
  assert (H2 : (binary64 (u * 2) <= binary64 2)%Q) by (apply binary64_le; lra).
  assert (Hlo : (binary64 (-1) <= binary64 (binary64 (u * 2) - 1))%Q)
    by (apply binary64_le; lra).
  assert (Hhi : (binary64 (binary64 (u * 2) - 1) <= binary64 1)%Q)
    by (apply binary64_le; lra).
  split; lra.
Qed.

(** The value before [Math.round] lies between the clamped delay minus and
    plus its quarter, each computed in doubles. *)
Lemma jittered_bounds (d u : Q) :
  (0 <= d)%Q -> (0 <= u)%Q -> (u < 1)%Q ->
  (double_sub d (double_mul d 0.25) <= jittered d u
   /\ jittered d u <= double_add d (double_mul d 0.25))%Q.
Proof.
  intros Hd Hu0 Hu1. unfold jittered.
  destruct (jitter_factor_bounds u Hu0 Hu1) as [Ht1 Ht2].
  set (t := double_sub (double_mul u 2) 1) in *.
  assert (Hq : (0 <= double_mul d 0.25)%Q)
    by (unfold double_mul; apply binary64_nonneg; lra).
  assert (Eq : (binary64 (double_mul d 0.25) == double_mul d 0.25)%Q)
    by (unfold double_mul; apply binary64_idempotent).
  set (q := double_mul d 0.25) in *.
  assert (Hj1 : (binary64 (- q) <= double_mul q t)%Q)
    by (unfold double_mul; apply binary64_le; nra).
  assert (Hj2 : (double_mul q t <= binary64 q)%Q)
    by (unfold double_mul; apply binary64_le; nra).
  rewrite binary64_opp in Hj1.
  unfold double_sub, double_add. split; apply binary64_le; lra.
Qed.

Lemma Math_round_lower (x : Q) : (x - (1 # 2) < inject_Z (Math_round x))%Q.
Proof.
  unfold Math_round.
  pose proof (Qlt_floor (x + (1 # 2))) as H.
  rewrite inject_Z_plus in H. change (inject_Z 1) with 1%Q in H. lra.
Qed.

Lemma Math_round_upper (x : Q) : (inject_Z (Math_round x) <= x + (1 # 2))%Q.
Proof. unfold Math_round. apply Qfloor_le. Qed.

Lemma Math_round_le (x y : Q) : (x <= y)%Q -> Math_round x <= Math_round y.
Proof. intros H. unfold Math_round. apply Qfloor_resp_le. lra. Qed.

Lemma Math_round_Z (x : Q) (z : Z) : (x == inject_Z z)%Q -> Math_round x = z.
Proof.
  intros E. unfold Math_round.
  assert (H : Qfloor (x + (1 # 2)) = Qfloor (inject_Z z + (1 # 2)))
    by (rewrite E; reflexivity).
  rewrite H. pose proof (Qfloor_bounds (inject_Z z + (1 # 2))) as [Hl Hh].
  set (f := Qfloor (inject_Z z + (1 # 2))) in *.
  assert (H1 : (inject_Z f < inject_Z (z + 1))%Q)
    by (rewrite inject_Z_plus; change (inject_Z 1) with 1%Q; lra).
  assert (H2 : (inject_Z z < inject_Z (f + 1))%Q)
    by (rewrite inject_Z_plus; change (inject_Z 1) with 1%Q; lra).
  rewrite <- Zlt_Qlt in H1, H2. lia.
Qed.

Lemma Math_round_ge_int (x : Q) (lo : Z) :
  (inject_Z lo <= x)%Q -> lo <= Math_round x.
Proof.
  intros H. pose proof (Math_round_le _ _ H) as H'.
  rewrite (Math_round_Z (inject_Z lo) lo) in H' by reflexivity. exact H'.
Qed.

Lemma Math_round_le_int (x : Q) (hi : Z) :
  (x <= inject_Z hi)%Q -> Math_round x <= hi.
Proof.
  intros H. pose proof (Math_round_le _ _ H) as H'.
  rewrite (Math_round_Z (inject_Z hi) hi) in H' by reflexivity. exact H'.
Qed.

(** The bounds of the delay over every value of the random source. *)
Lemma getRetryDelay_between c a u :
  (0 <= baseDelayMs (retryConfig c))%Q ->
  (0 <= maxDelayMs (retryConfig c))%Q ->
  (0 <= u)%Q -> (u < 1)%Q ->
  let d := clampedDelay c a in
  Math_round (double_sub d (double_mul d 0.25)) <= getRetryDelay c a u
  /\ getRetryDelay c a u <= Math_round (double_add d (double_mul d 0.25)).
Proof.
  intros Hb Hm Hu0 Hu1 d.
  pose proof (clampedDelay_nonneg c a Hb Hm) as Hd.
  destruct (jittered_bounds (clampedDelay c a) u Hd Hu0 Hu1) as [Hlo Hhi].
  rewrite getRetryDelay_unfold. split; apply Math_round_le; assumption.
Qed.

(** C2, as amended.  For an attempt index [a] below 1024, non-negative
    [baseDelayMs] and [maxDelayMs], the latter at most [2^1023] (so that no
    double involved is infinite), and a random value [u] in [0, 1), the
    delay before attempt [a + 1] is [Math.round] of
    [d + d * 0.25 * (u * 2 - 1)] computed in doubles, where
    [d = min(baseDelayMs * 2^a, maxDelayMs)]: the value before rounding
    lies between [d - d * 0.25] and [d + d * 0.25] as doubles, the delay
    returned is the integer nearest to it and so lies between the roundings
    of those two ends, and within [0.75 d, 1.25 d] whenever [d] is a
    multiple of four (of at most 2^52). *)
Theorem getRetryDelay_jitter_bounds (c : HttpClient) (a : Z) (u : Q) :
  a < 1024 ->
  (0 <= baseDelayMs (retryConfig c))%Q ->
  (0 <= maxDelayMs (retryConfig c))%Q ->
  (maxDelayMs (retryConfig c) <= pow2 1023)%Q ->
  (0 <= u)%Q -> (u < 1)%Q ->
  let d := Qmin (double_mul (baseDelayMs (retryConfig c)) (Math_pow2 a))
                (maxDelayMs (retryConfig c)) in
  let q := double_mul d 0.25 in
  let x := double_add d (double_mul q (double_sub (double_mul u 2) 1)) in
  getRetryDelay c a u = Math_round x
  /\ (double_sub d q <= x /\ x <= double_add d q)%Q
  /\ (x - 0.5 < inject_Z (getRetryDelay c a u)
      /\ inject_Z (getRetryDelay c a u) <= x + 0.5)%Q
  /\ Math_round (double_sub d q) <= getRetryDelay c a u <= Math_round (double_add d q)
  /\ (forall n : Z,
        0 <= n <= 2 ^ 50 -> (d == inject_Z (4 * n))%Q ->
        3 * n <= getRetryDelay c a u <= 5 * n).
Proof.
  intros _ Hb Hm _ Hu0 Hu1 d q x.
  pose proof (clampedDelay_nonneg c a Hb Hm) as Hd.
  destruct (jittered_bounds (clampedDelay c a) u Hd Hu0 Hu1) as [Hlo Hhi].
  destruct (getRetryDelay_between c a u Hb Hm Hu0 Hu1) as [Hrl Hrh].
  change (clampedDelay c a) with d in Hd, Hlo, Hhi, Hrl, Hrh.
  change (double_mul d 0.25) with q in Hlo, Hhi, Hrl, Hrh.
  change (jittered d u) with x in Hlo, Hhi.
  assert (Hdelay : getRetryDelay c a u = Math_round x) by reflexivity.
  split; [exact Hdelay |]. split; [split; assumption |].
  split.
  { rewrite Hdelay. pose proof (Math_round_lower x). pose proof (Math_round_upper x).
    split; lra. }
  split; [split; assumption |].
  intros n Hn En.
  assert (Eq : (q == inject_Z n)%Q).
  { unfold q, double_mul.
    assert (E : (d * 0.25 == inject_Z n)%Q).
    { rewrite En, inject_Z_mult. change (inject_Z 4) with 4%Q. field. }
    rewrite E. apply binary64_Z. lia. }
  assert (Elo : (double_sub d q == inject_Z (3 * n))%Q).
  { unfold double_sub.
    assert (E : (d - q == inject_Z (3 * n))%Q).
    { rewrite En, Eq, !inject_Z_mult.
      change (inject_Z 4) with 4%Q. change (inject_Z 3) with 3%Q. ring. }
    rewrite E. apply binary64_Z. lia. }
  assert (Ehi : (double_add d q == inject_Z (5 * n))%Q).
  { unfold double_add.
    assert (E : (d + q == inject_Z (5 * n))%Q).
    { rewrite En, Eq, !inject_Z_mult.
      change (inject_Z 4) with 4%Q. change (inject_Z 5) with 5%Q. ring. }
    rewrite E. apply binary64_Z. lia. }
  rewrite (Math_round_Z _ _ Elo) in Hrl. rewrite (Math_round_Z _ _ Ehi) in Hrh.
  split; assumption.
Qed.

(** With the default policy, the first backoff delay is between 750 and
    1250 ms when the random source yields 1/4. *)
Lemma getRetryDelay_jitter_bounds_witness :
  750 <= getRetryDelay (demo_client 3) 0 (1 # 4) <= 1250.
Proof.
  assert (Ha : 0 < 1024) by lia.
  assert (H0 : (0 <= 1000)%Q) by (vm_compute; discriminate).
  assert (H1 : (0 <= 10000)%Q) by (vm_compute; discriminate).
  assert (Hr : (10000 <= pow2 1023)%Q) by (vm_compute; discriminate).
  assert (H2 : (0 <= 1 # 4)%Q) by (vm_compute; discriminate).
  assert (H3 : (1 # 4 < 1)%Q) by reflexivity.
  destruct (getRetryDelay_jitter_bounds (demo_client 3) 0 (1 # 4) Ha H0 H1 Hr H2 H3)
    as (_ & _ & _ & _ & H).
  apply (H 250); [vm_compute; split; discriminate | vm_compute; reflexivity].
Defined.

(** C2, as stated, fails: with [baseDelayMs = 3] and the random source
    yielding 0, the value before rounding is 2.25 and the delay returned
    is 2, below 0.75 * 3. *)
Lemma getRetryDelay_leaves_jitter_range :
  ((0 <= 0)%Q /\ (0 < 1)%Q)
  /\ getRetryDelay short_delay_client 0 0 = 2
  /\ ~ in_jitter_range short_delay_client 0 (getRetryDelay short_delay_client 0 0).
Proof.
  split; [split; [vm_compute; discriminate | reflexivity] |].
  split; [vm_compute; reflexivity |].
  intros [H _]. vm_compute in H. apply H. reflexivity.
Qed.

(** The model computes what the floating-point unit computes: the value
    before [Math.round] for the default policy at attempts 0 to 4, for a
    base delay of 1000.4 and for a base delay of 2, with random values at
    both ends and inside [0, 1). *)
Lemma jittered_agrees_with_machine_doubles :
  Forall
    (fun '(base, max, a, u) =>
       match double_value base, double_value max, double_value u with
       | Some b, Some m, Some r =>
           option_map Qred (double_value (machine_jittered base max a u))
           = Some (Qred (jittered (Qmin (double_mul b (Math_pow2 a)) m) r))
       | _, _, _ => False
       end)
    [ (1000%float, 10000%float, 0, 0%float);
      (1000%float, 10000%float, 0, 0x1.a1cac083126e0p-5%float);
      (1000%float, 10000%float, 1, 0x1.5555555555555p-2%float);
      (1000%float, 10000%float, 2, 0x1.fffffffffffffp-1%float);
      (1000%float, 10000%float, 3, 0x1.6666666666666p-1%float);
      (1000%float, 10000%float, 4, 0x1.999999999999ap-4%float);
      (0x1.f433333333333p+9%float, 10000%float, 0, 0x1.fffffffffffffp-1%float);
      (0x1.f433333333333p+9%float, 10000%float, 2, 0x1.3333333333333p-2%float);
      (2%float, 10000%float, 0, 0x1.fffffffffffffp-1%float);
      (3%float, 10000%float, 0, 0%float);
      (0x1.999999999999ap-4%float, 0x1.3333333333333p-2%float, 1,
       0x1.ccccccccccccdp-1%float);
      (0x0.00000000007e8p-1022%float, 1%float, 0, 0x1.3333333333333p-1%float);
      (0x1.7e43c8800759cp+996%float, 0x1.23a516e82d9bap+1013%float, 7,
       0x1.999999999999ap-3%float) ].
Proof. repeat constructor. Qed.

(** Three delays in which the rounding of doubles shows: with the default
    policy and the random value 459367161991790 / 2^53 the delay is 776
    (775.5 before [Math.round], where exact arithmetic gives a value just
    below 775.5); with [baseDelayMs = 2] and the largest random value the
    delay is 3; with [baseDelayMs = 1000.4] and the largest random value it
    is 1251. *)
Lemma getRetryDelay_rounds_as_doubles :
  getRetryDelay (demo_client 3) 0 (459367161991790 # 2 ^ 53) = 776
  /\ getRetryDelay (custom_policy_client 2 10000) 0 (1 - (1 # 2 ^ 53)) = 3
  /\ getRetryDelay (custom_policy_client (binary64 1000.4) 10000) 0
       (1 - (1 # 2 ^ 53)) = 1251.
Proof. repeat split; vm_compute; reflexivity. Qed.

(** ** Construction *)

Lemma constructor_rejects (config : ChaindocConfig) :
  match cfg_secretKey config with
  | None => True
  | Some key => startsWith key "sk_" = false
  end ->
  exists e, constructor config = inl e.
Proof.
  unfold constructor. destruct (cfg_secretKey config) as [key |]; [| eauto].
  intros Hpre. destruct (key =? "")%string; [eauto |].
  rewrite Hpre. simpl. eauto.
Qed.

Lemma constructor_accepts (config : ChaindocConfig) (key : string) :
  cfg_secretKey config = Some key ->
  startsWith key "sk_" = true ->
  exists c, constructor config = inr c /\ secretKey c = key.
Proof.
  intros Hkey Hpre. unfold constructor. rewrite Hkey.
  destruct (key =? "")%string eqn:Hempty.
  - apply String.eqb_eq in Hempty. subst key. discriminate Hpre.
  - rewrite Hpre. simpl. eauto.
Qed.

Lemma startsWith_sk_prefix (rest : string) : startsWith ("sk_" +:+ rest) "sk_" = true.
Proof. destruct rest; reflexivity. Qed.

(** C7.  Construction throws exactly when the secret key is missing or
    does not start with [sk_]; a key that starts with [sk_] is accepted
    whatever follows the prefix; and [new HttpClient(config)] has no
    effect on the world, so that no transport call precedes the failure. *)
Theorem constructor_fails_iff_bad_key (config : ChaindocConfig) :
  ((exists e, constructor config = inl e) <->
   match cfg_secretKey config with
   | None => True
   | Some key => startsWith key "sk_" = false
   end)
  /\ (forall rest : string,
        cfg_secretKey config = Some ("sk_" +:+ rest) ->
        exists c, constructor config = inr c /\ secretKey c = "sk_" +:+ rest)
  /\ (forall w : World, snd (new_HttpClient config w) = w).
Proof.
  split; [split |].
  - intros [e He]. destruct (cfg_secretKey config) as [key |] eqn:Hkey; [| exact I].
    destruct (startsWith key "sk_") eqn:Hpre; [| reflexivity].
    destruct (constructor_accepts config key Hkey Hpre) as (c & Hc & _).
    congruence.
  - apply constructor_rejects.
  - split.
    + intros rest Hkey.
      exact (constructor_accepts config _ Hkey (startsWith_sk_prefix rest)).
    + intros w. unfold new_HttpClient. destruct (constructor config); reflexivity.
Qed.

(** C9, on the code.  A configuration that selects the staging
    environment yields a client whose base address is the production
    address: the constructor never reads [environment]. *)
Theorem staging_environment_is_ignored :
  cfg_environment staging_config = Some staging
  /\ exists c,
       constructor staging_config = inr c
       /\ baseUrl c = "https://api.chaindoc.io"
       /\ baseUrl c <> environment_url staging.
Proof.
  split; [reflexivity |].
  eexists. split; [reflexivity |]. split; [reflexivity |]. discriminate.
Qed.

(** The clients of the examples are the ones the constructor builds. *)
Lemma demo_client_constructed (r : Z) :
  constructor (demo_config r) = inr (demo_client r).
Proof. reflexivity. Qed.

Lemma constructor_base_address (config : ChaindocConfig) (c : HttpClient) :
  constructor config = inr c ->
  baseUrl c = strip_trailing_slash (nullish (cfg_baseUrl config) DEFAULT_BASE_URL).
Proof.
  unfold constructor. destruct (cfg_secretKey config) as [key |]; [| discriminate].
  destruct (key =? "")%string; [discriminate |].
  destruct (negb (startsWith key "sk_")); [discriminate |].
  intros [= <-]. reflexivity.
Qed.

(** ** One attempt *)

Lemma retry_gate (b : bool) (attempt maxAttempts : Z) :
  b && (attempt <? maxAttempts - 1) = false ->
  negb b || (maxAttempts - 1 <=? attempt) = true.
Proof.
  destruct b; simpl; [| reflexivity].
  intros H. apply Z.ltb_ge in H. apply Z.leb_le. exact H.
Qed.

Section Attempt.

Variable fetch_impl : nat -> FetchRequest -> FetchResult.
Variable Math_random : nat -> Q.

(** The [try] / [catch] statement of an attempt is [attempt_result] at
    the result of its transport call. *)
Lemma guarded_fetch_spec c failed timed_out maxAttempts attempt req w :
  guarded_fetch fetch_impl Math_random c failed timed_out maxAttempts attempt req w
  = attempt_result c failed timed_out maxAttempts attempt req
                   (fetch_impl (fetchCalls w) req)
                   (Math_random (randomCalls w)) w.
Proof.
  unfold guarded_fetch, attempt_result, try_catch, bind, fetch.
  destruct (fetch_impl (fetchCalls w) req) as [resp | t]; simpl.
  - unfold on_response, payload.
    destruct (is_empty resp) eqn:Hempty; simpl; [reflexivity |].
    destruct (indicates_json (resp_headers resp !! "content-type"));
      unfold bind, json_or_undefined, ret; simpl.
    + destruct (ok resp); simpl; [reflexivity |].
      destruct (isRetryableError None (Some (status resp))
                && (attempt <? maxAttempts - 1)) eqn:Hgo.
      * reflexivity.
      * unfold throw, on_error; simpl. rewrite (retry_gate _ _ _ Hgo). reflexivity.
    + destruct (ok resp); simpl; [reflexivity |].
      destruct (isRetryableError None (Some (status resp))
                && (attempt <? maxAttempts - 1)) eqn:Hgo.
      * reflexivity.
      * unfold throw, on_error; simpl. rewrite (retry_gate _ _ _ Hgo). reflexivity.
  - destruct t as [e | name msg | v]; simpl.
    + destruct (isRetryable e && (attempt <? maxAttempts - 1)) eqn:Hgo.
      * apply andb_true_iff in Hgo as [He Hlt]. rewrite He. simpl.
        apply Z.ltb_lt in Hlt.
        destruct (Z.leb_spec (maxAttempts - 1) attempt); [lia | reflexivity].
      * rewrite (retry_gate _ _ _ Hgo). reflexivity.
    + destruct (isRetryableError (Some (ThrownError name msg)) None
                && (attempt <? maxAttempts - 1)); reflexivity.
    + reflexivity.
Qed.

End Attempt.

(** ** What an attempt leaves in the world *)

Lemma fetch_requests_app (t1 t2 : list Event) :
  fetch_requests (t1 ++ t2) = fetch_requests t1 ++ fetch_requests t2.
Proof. apply omap_app. Qed.

Lemma sleeps_app (t1 t2 : list Event) :
  sleeps (t1 ++ t2) = sleeps t1 ++ sleeps t2.
Proof. apply omap_app. Qed.

Lemma json_decodes_app (t1 t2 : list Event) :
  json_decodes (t1 ++ t2) = (json_decodes t1 + json_decodes t2)%nat.
Proof. unfold json_decodes. rewrite omap_app, length_app. reflexivity. Qed.

Lemma attempt_result_fetchCalls c failed timed_out mx a req fr u w :
  fetchCalls (snd (attempt_result c failed timed_out mx a req fr u w))
  = S (fetchCalls w).
Proof.
  unfold attempt_result.
  destruct (decodes fr), (failure_of failed timed_out fr) as [e |];
    try destruct (isRetryable e && (a <? mx - 1)); reflexivity.
Qed.

Lemma attempt_result_forms c failed timed_out mx a req fr u w :
  forms (snd (attempt_result c failed timed_out mx a req fr u w)) = forms w.
Proof.
  unfold attempt_result.
  destruct (decodes fr), (failure_of failed timed_out fr) as [e |];
    try destruct (isRetryable e && (a <? mx - 1)); reflexivity.
Qed.

Lemma attempt_result_fetch_requests c failed timed_out mx a req fr u w :
  fetch_requests (trace (snd (attempt_result c failed timed_out mx a req fr u w)))
  = fetch_requests (trace w) ++ [req].
Proof.
  unfold attempt_result.
  destruct (decodes fr), (failure_of failed timed_out fr) as [e |];
    try destruct (isRetryable e && (a <? mx - 1));
    simpl; rewrite ?fetch_requests_app; simpl; rewrite ?fetch_requests_app;
    simpl; rewrite ?app_nil_r; reflexivity.
Qed.

Lemma attempt_result_json_decodes c failed timed_out mx a req fr u w :
  json_decodes (trace (snd (attempt_result c failed timed_out mx a req fr u w)))
  = (json_decodes (trace w) + (if decodes fr then 1 else 0))%nat.
Proof.
  unfold attempt_result.
  destruct (decodes fr), (failure_of failed timed_out fr) as [e |];
    try destruct (isRetryable e && (a <? mx - 1));
    simpl; rewrite ?json_decodes_app; simpl; rewrite ?json_decodes_app;
    unfold json_decodes; simpl; lia.
Qed.

(** An attempt sleeps exactly when it ends in [continue], and then once,
    for the backoff delay. *)
Lemma attempt_result_sleeps c failed timed_out mx a req fr u w :
  sleeps (trace (snd (attempt_result c failed timed_out mx a req fr u w)))
  = sleeps (trace w) ++
    match fst (attempt_result c failed timed_out mx a req fr u w) with
    | Normal (Continue _) => [getRetryDelay c a u]
    | _ => []
    end.
Proof.
  unfold attempt_result.
  destruct (decodes fr), (failure_of failed timed_out fr) as [e |];
    try destruct (isRetryable e && (a <? mx - 1));
    simpl; rewrite ?sleeps_app; simpl; rewrite ?sleeps_app;
    simpl; rewrite ?app_nil_r; reflexivity.
Qed.

(** On the last attempt of the budget nothing is retried. *)
Lemma attempt_result_last c failed timed_out mx a req fr u w :
  mx - 1 <= a ->
  attempt_result c failed timed_out mx a req fr u w
  = (match failure_of failed timed_out fr with
     | None => Normal (Return (value_of fr))
     | Some e => Abrupt (ThrownChaindoc e)
     end,
     if decodes fr then log EvJson (after_fetch req w) else after_fetch req w).
Proof.
  intros Hlast. unfold attempt_result.
  destruct (failure_of failed timed_out fr) as [e |]; [| reflexivity].
  destruct (Z.ltb_spec a (mx - 1)); [lia |].
  rewrite andb_false_r. reflexivity.
Qed.

(** A retryable failure before the last attempt makes the loop go on. *)
Lemma attempt_result_retry c failed timed_out mx a req fr u w e :
  failure_of failed timed_out fr = Some e ->
  isRetryable e = true ->
  a < mx - 1 ->
  fst (attempt_result c failed timed_out mx a req fr u w) = Normal (Continue e).
Proof.
  intros Hf He Hlt. unfold attempt_result. rewrite Hf, He.
  destruct (Z.ltb_spec a (mx - 1)); [reflexivity | lia].
Qed.

Lemma retryable_failure_inv failed timed_out fr :
  retryable_failure failed timed_out fr = true ->
  exists e, failure_of failed timed_out fr = Some e /\ isRetryable e = true.
Proof.
  unfold retryable_failure.
  destruct (failure_of failed timed_out fr) as [e |]; [eauto | discriminate].
Qed.

(** ** The attempt loop

    The loops of [request] and [uploadFiles] are instances of one scheme:
    each iteration prepares the world ([prep]), then runs the [try] /
    [catch] statement on the request of that iteration ([reqs k] for the
    [k]-th iteration of the run).  [Inv k] is what the method knows of the
    store before iteration [k]. *)

Section Loop.

Variable fetch_impl : nat -> FetchRequest -> FetchResult.
Variable Math_random : nat -> Q.
Variables (c : HttpClient) (failed timed_out exhausted : string).
Variable maxAttempts : Z.
Variable body : Z -> M LoopStep.
Variable reqs : nat -> FetchRequest.
Variable prep : World -> World.
Variable Inv : nat -> World -> Prop.

Hypothesis body_spec : forall k a w,
  Inv k w ->
  body a w
  = guarded_fetch fetch_impl Math_random c failed timed_out maxAttempts a
                  (reqs k) (prep w).
Hypothesis prep_fetchCalls : forall w, fetchCalls (prep w) = fetchCalls w.
Hypothesis prep_randomCalls : forall w, randomCalls (prep w) = randomCalls w.
Hypothesis prep_fetch_requests : forall w,
  fetch_requests (trace (prep w)) = fetch_requests (trace w).
Hypothesis prep_sleeps : forall w, sleeps (trace (prep w)) = sleeps (trace w).
Hypothesis Inv_step : forall k w w',
  Inv k w -> forms w' = forms (prep w) -> Inv (S k) w'.

Lemma body_result k a w :
  Inv k w ->
  body a w
  = attempt_result c failed timed_out maxAttempts a (reqs k)
                   (fetch_impl (fetchCalls w) (reqs k))
                   (Math_random (randomCalls w)) (prep w).
Proof.
  intros HI. rewrite (body_spec k a w HI), guarded_fetch_spec.
  rewrite prep_fetchCalls, prep_randomCalls. reflexivity.
Qed.

(** The world one iteration leaves. *)
Lemma body_world k a w :
  Inv k w ->
  Inv (S k) (snd (body a w))
  /\ fetchCalls (snd (body a w)) = S (fetchCalls w)
  /\ fetch_requests (trace (snd (body a w)))
     = fetch_requests (trace w) ++ [reqs k].
Proof.
  intros HI. rewrite (body_result k a w HI). split; [| split].
  - apply (Inv_step k w); [exact HI | apply attempt_result_forms].
  - rewrite attempt_result_fetchCalls, prep_fetchCalls. reflexivity.
  - rewrite attempt_result_fetch_requests, prep_fetch_requests. reflexivity.
Qed.

(** Whatever the transport does, a run makes between one attempt and the
    whole budget, and issues the requests of its iterations in order. *)
Lemma attempts_trace remaining : forall k a last w,
  Inv k w ->
  exists n : nat,
    (n <= remaining)%nat
    /\ (remaining <> 0%nat -> n <> 0%nat)
    /\ Inv (k + n) (snd (attempts body exhausted remaining a last w))
    /\ fetchCalls (snd (attempts body exhausted remaining a last w))
       = (fetchCalls w + n)%nat
    /\ fetch_requests (trace (snd (attempts body exhausted remaining a last w)))
       = fetch_requests (trace w) ++ map reqs (seq k n).
Proof.
  induction remaining as [| m IH]; intros k a last w HI.
  - exists 0%nat. simpl. rewrite Nat.add_0_r, app_nil_r.
    repeat split; try assumption; try lia.
  - destruct (body_world k a w HI) as (HI1 & Hf1 & Ht1).
    simpl. unfold bind.
    destruct (body a w) as [[[e | v] | t] w1]; simpl in *.
    + destruct (IH (S k) (a + 1) (Some e) w1 HI1) as (n & Hn & _ & HIn & Hfn & Htn).
      exists (S n). rewrite Hfn, Htn, Hf1, Ht1.
      replace (k + S n)%nat with (S k + n)%nat by lia.
      repeat split; try assumption; try lia.
      rewrite <- app_assoc. reflexivity.
    + exists 1%nat. replace (k + 1)%nat with (S k) by lia.
      repeat split; try assumption; try lia.
    + exists 1%nat. replace (k + 1)%nat with (S k) by lia.
      repeat split; try assumption; try lia.
Qed.

(** When every attempt of the budget ends in a retryable failure, the run
    uses the whole budget, sleeps between attempts only, and throws the
    error of the last attempt. *)
Lemma attempts_exhaust n : forall k a last w,
  Inv k w ->
  maxAttempts = a + Z.of_nat (S n) ->
  (forall j, (j <= n)%nat ->
     retryable_failure failed timed_out
       (fetch_impl (fetchCalls w + j) (reqs (k + j))) = true) ->
  exists e w',
    attempts body exhausted (S n) a last w = (Abrupt (ThrownChaindoc e), w')
    /\ failure_of failed timed_out (fetch_impl (fetchCalls w + n) (reqs (k + n)))
       = Some e
    /\ isRetryable e = true
    /\ fetchCalls w' = (fetchCalls w + S n)%nat
    /\ fetch_requests (trace w') = fetch_requests (trace w) ++ map reqs (seq k (S n))
    /\ length (sleeps (trace w')) = (length (sleeps (trace w)) + n)%nat
    /\ Inv (k + S n) w'.
Proof.
  induction n as [| n IH]; intros k a last w HI Hmax Hall.
  - destruct (retryable_failure_inv _ _ _ (Hall 0%nat (Nat.le_refl _)))
      as (e & Hfail & Hretry).
    rewrite !Nat.add_0_r in Hfail.
    destruct (body_world k a w HI) as (HI1 & Hf1 & Ht1).
    pose proof (body_result k a w HI) as Hbody.
    rewrite attempt_result_last in Hbody by lia. rewrite Hfail in Hbody.
    exists e. eexists. simpl. unfold bind. rewrite Hbody.
    rewrite Hbody in HI1, Hf1, Ht1. simpl in HI1, Hf1, Ht1.
    rewrite !Nat.add_0_r. replace (k + 1)%nat with (S k) by lia.
    repeat split; try eassumption; try lia.
    destruct (decodes (fetch_impl (fetchCalls w) (reqs k))); simpl;
      rewrite ?sleeps_app; simpl; rewrite ?sleeps_app; simpl;
      rewrite ?app_nil_r, prep_sleeps; reflexivity.
  - destruct (retryable_failure_inv _ _ _ (Hall 0%nat (Nat.le_0_l _)))
      as (e0 & Hfail0 & Hretry0).
    rewrite !Nat.add_0_r in Hfail0.
    destruct (body_world k a w HI) as (HI1 & Hf1 & Ht1).
    pose proof (body_result k a w HI) as Hbody.
    pose proof (attempt_result_retry c failed timed_out maxAttempts a (reqs k)
                  _ (Math_random (randomCalls w)) (prep w) e0 Hfail0 Hretry0
                  ltac:(lia)) as Hstep.
    pose proof (attempt_result_sleeps c failed timed_out maxAttempts a (reqs k)
                  (fetch_impl (fetchCalls w) (reqs k))
                  (Math_random (randomCalls w)) (prep w)) as Hsl.
    rewrite Hstep, <- Hbody in Hsl. rewrite <- Hbody in Hstep.
    destruct (body a w) as [step1 w1] eqn:Hrun. simpl in *. subst step1.
    destruct (IH (S k) (a + 1) (Some e0) w1 HI1 ltac:(lia)) as
      (e & w' & Hrun' & Hfail & Hretry & Hf & Ht & Hs & HI').
    { intros j Hj. rewrite Hf1.
      replace (S (fetchCalls w) + j)%nat with (fetchCalls w + S j)%nat by lia.
      replace (S k + j)%nat with (k + S j)%nat by lia.
      apply Hall. lia. }
    exists e, w'. unfold bind. rewrite Hrun. 
    rewrite Hf1 in Hfail, Hf.
    replace (S (fetchCalls w) + n)%nat with (fetchCalls w + S n)%nat in Hfail by lia.
    replace (S k + n)%nat with (k + S n)%nat in Hfail by lia.
    replace (S k + S n)%nat with (k + S (S n))%nat in HI' by lia.
    rewrite Ht1, <- app_assoc in Ht.
    rewrite Hsl, prep_sleeps, length_app in Hs. simpl in Hs.
    repeat split; try assumption; try lia.
Qed.

End Loop.

Lemma map_const_seq {A} (x : A) (k n : nat) :
  map (fun _ => x) (seq k n) = replicate n x.
Proof.
  revert k. induction n as [| n IH]; intros k; simpl; [reflexivity |].
  rewrite IH. reflexivity.
Qed.

(** ** HttpClient.request *)

Section Request.

Variable fetch_impl : nat -> FetchRequest -> FetchResult.
Variable Math_random : nat -> Q.
Variable JSON_stringify : JsValue -> string.
Variables (c : HttpClient) (endpoint : string) (options : RequestOptions).

Local Abbreviation req := (request_init JSON_stringify c endpoint options).
Local Abbreviation run := (request fetch_impl Math_random JSON_stringify c endpoint options).
Local Abbreviation failure := (failure_of "Request failed with status " "Request timeout").
Local Abbreviation retryable :=
  (retryable_failure "Request failed with status " "Request timeout").

Local Abbreviation budget := (request_budget c options).

Lemma request_unfold w :
  run w
  = attempts (request_attempt fetch_impl Math_random JSON_stringify c endpoint
                              options budget)
             "Request failed after retries"
             (Z.to_nat budget) 0 None w.
Proof. reflexivity. Qed.

(** Every transport call of [request] has the same arguments. *)
Lemma request_trace w :
  exists n : nat,
    (n <= Z.to_nat budget)%nat
    /\ (0 < budget -> n <> 0%nat)
    /\ fetchCalls (snd (run w)) = (fetchCalls w + n)%nat
    /\ fetch_requests (trace (snd (run w)))
       = fetch_requests (trace w) ++ replicate n req.
Proof.
  rewrite request_unfold.
  destruct (attempts_trace fetch_impl Math_random c
              "Request failed with status " "Request timeout"
              "Request failed after retries" budget
              (request_attempt fetch_impl Math_random JSON_stringify c endpoint
                               options budget)
              (fun _ => req) (fun w => w) (fun _ _ => True)
              ltac:(reflexivity) ltac:(reflexivity) ltac:(reflexivity)
              ltac:(reflexivity) ltac:(trivial)
              (Z.to_nat budget) 0%nat 0 None w I)
    as (n & Hn & Hpos & _ & Hf & Ht).
  exists n. rewrite map_const_seq in Ht.
  repeat split; try assumption. intros Hb. apply Hpos. lia.
Qed.

(** When the budget is [S n] attempts and each of them ends in a
    retryable failure, [request] throws the error of the last one. *)
Lemma request_exhaust (n : nat) w :
  budget = Z.of_nat (S n) ->
  (forall k, (k <= n)%nat -> retryable (fetch_impl (fetchCalls w + k) req) = true) ->
  exists e w',
    run w = (Abrupt (ThrownChaindoc e), w')
    /\ failure (fetch_impl (fetchCalls w + n) req) = Some e
    /\ isRetryable e = true
    /\ fetch_requests (trace w') = fetch_requests (trace w) ++ replicate (S n) req
    /\ length (sleeps (trace w')) = (length (sleeps (trace w)) + n)%nat.
Proof.
  intros Hbudget Hall. rewrite request_unfold, Hbudget, Nat2Z.id.
  destruct (attempts_exhaust fetch_impl Math_random c
              "Request failed with status " "Request timeout"
              "Request failed after retries" budget
              (request_attempt fetch_impl Math_random JSON_stringify c endpoint
                               options budget)
              (fun _ => req) (fun w => w) (fun _ _ => True)
              ltac:(reflexivity) ltac:(reflexivity) ltac:(reflexivity)
              ltac:(reflexivity) ltac:(reflexivity) ltac:(trivial)
              n 0%nat 0 None w I ltac:(lia) Hall)
    as (e & w' & Hrun & Hfail & Hretry & _ & Ht & Hs & _).
  exists e, w'. rewrite <- Hbudget. rewrite map_const_seq in Ht.
  repeat split; assumption.
Qed.

(** The first attempt of a non-empty budget decides the call when it
    builds no error or when it is also the last. *)
Lemma request_first_attempt w :
  0 < budget ->
  let fr := fetch_impl (fetchCalls w) req in
  let w' := if decodes fr then log EvJson (after_fetch req w) else after_fetch req w in
  (failure fr = None -> run w = (Normal (value_of fr), w'))
  /\ (budget = 1 ->
      forall e, failure fr = Some e -> run w = (Abrupt (ThrownChaindoc e), w')).
Proof.
  intros Hpos fr w'. rewrite request_unfold.
  destruct (Z.to_nat budget) as [| m] eqn:Hm; [lia |].
  simpl. unfold bind, request_attempt. rewrite guarded_fetch_spec. fold fr.
  split.
  - intros Hnone. unfold attempt_result. rewrite Hnone. reflexivity.
  - intros Hone e Hsome. rewrite attempt_result_last by lia.
    rewrite Hsome. reflexivity.
Qed.

(** The message of a status error is the [message] property of the
    payload when that is a string, the generic message otherwise. *)
Lemma errorMessage_spec (failed : string) (data : JsValue) (st : Z) :
  errorMessage failed data st
  = match message_field data with
    | Some m => m
    | None => failed +:+ pretty st
    end.
Proof.
  unfold errorMessage, message_field, has_prop.
  destruct data as [| | b | q | | s | items | fields]; simpl;
    try reflexivity;
    try (destruct b; reflexivity);
    try (destruct (negb (Qeq_bool q 0)); reflexivity);
    try (destruct (negb (s =? EmptyString)%string); reflexivity).
  destruct (assoc "message" fields) as [[| | b | q | | s | items | fields'] |];
    reflexivity.
Qed.

(** Retryable statuses: 5xx (and above) and 429. *)
Lemma isRetryableError_status (st : Z) :
  isRetryableError None (Some st) = (500 <=? st) || (st =? 429).
Proof.
  unfold isRetryableError.
  destruct (Z.leb_spec 500 st) as [Hge | Hlt]; simpl.
  - destruct (Z.eqb_spec st 0); [lia | reflexivity].
  - rewrite andb_false_r. destruct (st =? 429); reflexivity.
Qed.

(** Transport failures: an abort, or a message naming a transient class. *)
Lemma isRetryableError_transport (name msg : string) :
  isRetryableError (Some (ThrownError name msg)) None
  = existsb (fun e => includes msg e) networkErrors || (name =? "AbortError")%string.
Proof. reflexivity. Qed.

(** A response that is not treated as empty and carries status 5xx or
    429 is a retryable failure. *)
Lemma retryable_status failed timed_out (resp : Response) :
  is_empty resp = false ->
  (500 <=? status resp) || (status resp =? 429) = true ->
  retryable_failure failed timed_out (Resolved resp) = true.
Proof.
  intros Hne Hst. unfold retryable_failure, failure_of. rewrite Hne.
  assert (Hok : ok resp = false).
  { unfold ok. apply orb_true_iff in Hst as [H | H].
    - apply Z.leb_le in H. destruct (Z.leb_spec (status resp) 299); [lia |].
      apply andb_false_r.
    - apply Z.eqb_eq in H. rewrite H. reflexivity. }
  rewrite Hok. simpl. rewrite isRetryableError_status. exact Hst.
Qed.

(** X20.  With retry enabled and [maxRetries = r], when each of the first
    [r + 1] transport calls ends in what the code classes as a retryable
    failure (a response that is not treated as empty, with status 429 or
    at least 500, or a transport failure of a transient class), [request]
    makes exactly [r + 1] transport calls, sleeps [r] times and throws the
    error built from the last attempt: it is flagged retryable and carries
    the status of the last response.  No other error is substituted for
    it.  A 503 announced with content-length [0] is not such a failure. *)
Theorem request_exhausts_retry_budget (r : nat) (w : World) :
  maxRetries (retryConfig c) = Z.of_nat r ->
  nullish (opt_noRetry options) false = false ->
  (forall k, (k <= r)%nat -> retryable (fetch_impl (fetchCalls w + k) req) = true) ->
  exists e w',
    run w = (Abrupt (ThrownChaindoc e), w')
    /\ failure (fetch_impl (fetchCalls w + r) req) = Some e
    /\ isRetryable e = true
    /\ (forall resp,
          fetch_impl (fetchCalls w + r) req = Resolved resp ->
          statusCode e = Some (status resp))
    /\ fetch_requests (trace w') = fetch_requests (trace w) ++ replicate (S r) req
    /\ length (sleeps (trace w')) = (length (sleeps (trace w)) + r)%nat.
Proof.
  intros Hr Hretry Hall.
  assert (Hbudget : budget = Z.of_nat (S r)).
  { unfold request_budget. rewrite Hretry, Hr. lia. }
  destruct (request_exhaust r w Hbudget Hall)
    as (e & w' & Hrun & Hfail & He & Ht & Hs).
  exists e, w'. repeat split; try assumption.
  intros resp Hresp. rewrite Hresp in Hfail. simpl in Hfail.
  destruct (is_empty resp); [discriminate |].
  destruct (ok resp); [discriminate |].
  injection Hfail as <-. reflexivity.
Qed.

Lemma not_ok_not_204 (resp : Response) : ok resp = false -> (status resp =? 204) = false.
Proof.
  unfold ok. intros H. destruct (Z.eqb_spec (status resp) 204) as [E |]; [| reflexivity].
  rewrite E in H. discriminate H.
Qed.

(** C3, as amended.  For a non-2xx response whose content-length header
    is not [0], the attempt builds an error that carries the status of the
    response, whose message is the [message] property of the payload when
    that is a string and [Request failed with status N] otherwise (the
    payload being the decoded body when the content type indicates JSON
    and decoding succeeds, and undefined otherwise), and that is retryable
    exactly when the status is at least 500 or equals 429.  That error is
    kept for the next attempt when it is retryable and attempts remain,
    and thrown otherwise. *)
Theorem status_error_fields (maxAttempts attempt : Z) (resp : Response) (w : World) :
  fetch_impl (fetchCalls w) req = Resolved resp ->
  ok resp = false ->
  resp_headers resp !! "content-length" <> Some "0" ->
  let e :=
    {| message :=
         match message_field (payload resp) with
         | Some m => m
         | None => "Request failed with status " +:+ pretty (status resp)
         end;
       statusCode := Some (status resp);
       response := payload resp;
       isRetryable := (500 <=? status resp) || (status resp =? 429) |} in
  fst (request_attempt fetch_impl Math_random JSON_stringify c endpoint options
                       maxAttempts attempt w)
  = if isRetryable e && (attempt <? maxAttempts - 1)
    then Normal (Continue e)
    else Abrupt (ThrownChaindoc e).
Proof.
  intros Hfetch Hok Hlen e.
  unfold request_attempt. rewrite guarded_fetch_spec, Hfetch.
  unfold attempt_result, failure_of.
  assert (Hempty : is_empty resp = false).
  { unfold is_empty. rewrite (not_ok_not_204 resp Hok). simpl.
    apply bool_decide_eq_false. exact Hlen. }
  rewrite Hempty, Hok, errorMessage_spec, isRetryableError_status.
  fold e. destruct (isRetryable e && (attempt <? maxAttempts - 1)); reflexivity.
Qed.

(** C4, as amended.  With [maxRetries = 1] and a transport that aborts on
    both attempts, [request] makes exactly two transport calls and throws
    an error with message [Request timeout], no status code and the
    retryable flag set.  In general a transport failure that is an [Error]
    yields an error without status code: for an abort the message is
    [Request timeout] and the error is retryable; otherwise the message is
    that of the failure, and the error is retryable exactly when that
    message names one of ECONNRESET, ECONNREFUSED, ETIMEDOUT, ENOTFOUND,
    EAI_AGAIN. *)
Theorem transport_failure_classification (w : World) :
  (maxRetries (retryConfig c) = 1 ->
   nullish (opt_noRetry options) false = false ->
   (forall k, (k <= 1)%nat ->
      exists msg,
        fetch_impl (fetchCalls w + k) req = Rejected (ThrownError "AbortError" msg)) ->
   exists w',
     run w = (Abrupt (ThrownChaindoc
                        (mkChaindocError "Request timeout" None JUndefined true)), w')
     /\ fetch_requests (trace w') = fetch_requests (trace w) ++ [req; req]
     /\ length (sleeps (trace w')) = (length (sleeps (trace w)) + 1)%nat)
  /\ (forall (name msg : string) (maxAttempts attempt : Z),
        fetch_impl (fetchCalls w) req = Rejected (ThrownError name msg) ->
        exists e,
          fst (request_attempt fetch_impl Math_random JSON_stringify c endpoint
                               options maxAttempts attempt w)
          = (if isRetryable e && (attempt <? maxAttempts - 1)
             then Normal (Continue e)
             else Abrupt (ThrownChaindoc e))
          /\ statusCode e = None
          /\ (name = "AbortError" ->
              message e = "Request timeout" /\ isRetryable e = true)
          /\ (name <> "AbortError" ->
              message e = msg
              /\ isRetryable e
                 = existsb (fun code => includes msg code)
                     ["ECONNRESET"; "ECONNREFUSED"; "ETIMEDOUT"; "ENOTFOUND";
                      "EAI_AGAIN"])).
Proof.
  split.
  - intros Hr Hretry Hall.
    assert (Hbudget : budget = Z.of_nat 2).
    { unfold request_budget. rewrite Hretry, Hr. reflexivity. }
    assert (Hall' : forall k, (k <= 1)%nat ->
              retryable (fetch_impl (fetchCalls w + k) req) = true).
    { intros k Hk. destruct (Hall k Hk) as [msg ->].
      unfold retryable_failure. simpl. rewrite isRetryableError_transport.
      apply orb_true_r. }
    destruct (request_exhaust 1 w Hbudget Hall')
      as (e & w' & Hrun & Hfail & _ & Ht & Hs).
    destruct (Hall 1%nat (Nat.le_refl _)) as [msg Hlast].
    rewrite Hlast in Hfail. simpl in Hfail.
    rewrite isRetryableError_transport, orb_true_r in Hfail.
    injection Hfail as <-.
    exists w'. repeat split; assumption.
  - intros name msg maxAttempts attempt Hfetch.
    unfold request_attempt. rewrite guarded_fetch_spec, Hfetch.
    unfold attempt_result. simpl failure_of. rewrite isRetryableError_transport.
    exists (mkChaindocError
              (if (name =? "AbortError")%string then "Request timeout" else msg)
              None JUndefined
              (existsb (fun e => includes msg e) networkErrors
               || (name =? "AbortError")%string)).
    split; [| split; [| split]].
    + match goal with
      | |- context [isRetryable ?e && _] =>
        destruct (isRetryable e && (attempt <? maxAttempts - 1)); reflexivity
      end.
    + reflexivity.
    + intros ->. simpl. split; [reflexivity | apply orb_true_r].
    + intros Hname. simpl.
      destruct (String.eqb_spec name "AbortError") as [E |]; [contradiction |].
      split; [reflexivity | apply orb_false_r].
Qed.


(** An empty budget (a negative [maxRetries]) is the one case in which
    the error thrown after the loop is not one built by an attempt. *)
Lemma request_empty_budget (w : World) :
  budget <= 0 ->
  run w
  = (Abrupt (ThrownChaindoc (ChaindocError_of_message "Request failed after retries")),
     w).
Proof.
  intros Hb. rewrite request_unfold.
  replace (Z.to_nat budget) with 0%nat by lia. reflexivity.
Qed.

(** [request] returns at once when the response of its first attempt is
    treated as empty, whatever the status of that response. *)
Lemma request_returns_on_empty_response (resp : Response) (w : World) :
  0 < budget ->
  fetch_impl (fetchCalls w) req = Resolved resp ->
  is_empty resp = true ->
  run w = (Normal JUndefined, after_fetch req w).
Proof.
  intros Hpos Hfetch Hempty.
  destruct (request_first_attempt w Hpos) as [Hnone _].
  rewrite Hfetch in Hnone. simpl in Hnone. rewrite Hempty in Hnone.
  exact (Hnone eq_refl).
Qed.

(** The falsy values. *)
Lemma truthy_false_iff (v : JsValue) :
  truthy v = false
  <-> v = JUndefined \/ v = JNull \/ v = JNaN \/ v = JBool false
      \/ v = JString EmptyString \/ exists q, v = JNumber q /\ (q == 0)%Q.
Proof.
  split.
  - destruct v as [| | b | q | | str | items | fields]; simpl; intros H;
      try discriminate; auto.
    + destruct b; [discriminate | auto].
    + do 5 right. exists q. split; [reflexivity |].
      apply Qeq_bool_iff. destruct (Qeq_bool q 0); [reflexivity | discriminate].
    + do 4 right. left. destruct str; [reflexivity | discriminate].
  - intros [-> | [-> | [-> | [-> | [-> | (q & -> & Hq)]]]]]; try reflexivity.
    simpl. apply Qeq_bool_iff in Hq. rewrite Hq. reflexivity.
Qed.

(** C10.  A call of [request] issues between one (for a budget that is not
    empty) and [maxAttempts] transport calls, and each of them carries the
    serialized [body] option when that value is truthy, and no body at all
    when it is falsy.  The falsy values are undefined, null, NaN, false,
    the empty string and the number 0. *)
Theorem request_body_iff_truthy (w : World) :
  (exists n : nat,
     (n <= Z.to_nat budget)%nat
     /\ (0 < budget -> (1 <= n)%nat)
     /\ fetch_requests (trace (snd (run w)))
        = fetch_requests (trace w)
          ++ replicate n
               {| req_url := baseUrl c +:+ endpoint;
                  req_method := nullish (opt_method options) GET;
                  req_headers :=
                    spread (defaultHeaders c) (nullish (opt_headers options) ∅);
                  req_body :=
                    if truthy (opt_body options)
                    then BodyText (JSON_stringify (opt_body options))
                    else BodyAbsent;
                  req_abortAfter := nullish (opt_timeout options) (timeout c) |})
  /\ (truthy (opt_body options) = false
      <-> opt_body options = JUndefined \/ opt_body options = JNull
          \/ opt_body options = JNaN \/ opt_body options = JBool false
          \/ opt_body options = JString EmptyString
          \/ exists q, opt_body options = JNumber q /\ (q == 0)%Q).
Proof.
  split; [| apply truthy_false_iff].
  destruct (request_trace w) as (n & Hn & Hpos & _ & Ht).
  exists n. split; [exact Hn |]. split; [intros H; specialize (Hpos H); lia |].
  exact Ht.
Qed.

End Request.

(** C1, on the code.  A 503 whose content-length header is [0] is returned
    as a success: for every [maxRetries = r], the call makes one transport
    call, does not sleep, and returns [undefined], where C1 has [r + 1]
    attempts and the error built from the 503. *)
Theorem empty_503_is_returned_not_retried (r : nat) :
  let c := demo_client (Z.of_nat r) in
  let run := request (always (Resolved unavailable_empty)) no_jitter stub_stringify
                     c "/api/v1/me" no_options empty_world in
  status unavailable_empty = 503
  /\ ok unavailable_empty = false
  /\ isRetryableError None (Some (status unavailable_empty)) = true
  /\ request_budget c no_options = Z.of_nat r + 1
  /\ fst run = Normal JUndefined
  /\ fetch_requests (trace (snd run))
     = [request_init stub_stringify c "/api/v1/me" no_options]
  /\ sleeps (trace (snd run)) = [].
Proof.
  intros c run.
  assert (Hrun : run
    = (Normal JUndefined,
       after_fetch (request_init stub_stringify c "/api/v1/me" no_options)
                   empty_world)).
  { apply (request_returns_on_empty_response _ _ _ _ _ _ unavailable_empty);
      [unfold request_budget; simpl; lia | reflexivity | reflexivity]. }
  rewrite Hrun. repeat split.
Qed.

(** ** HttpClient.uploadFiles *)

Section Upload.

Variable fetch_impl : nat -> FetchRequest -> FetchResult.
Variable Math_random : nat -> Q.
Variables (c : HttpClient) (endpoint : string).
Variables (files : list Blob) (fieldName : string).

Local Abbreviation upload := (uploadFiles fetch_impl Math_random c endpoint files fieldName).
Local Abbreviation upload_budget := (maxRetries (retryConfig c) + 1).

(** Appending the files one by one to the form at the end of the store
    extends that form by their entries. *)
Lemma forEach_append (fs : list Blob) : forall store acc fc rc tr,
  forEach fs (fun file => FormData_append (length store) fieldName file)
          (mkWorld fc rc (store ++ [acc]) tr)
  = (Normal tt, mkWorld fc rc (store ++ [acc ++ form_entries fieldName fs]) tr).
Proof.
  induction fs as [| file fs IH]; intros store acc fc rc tr.
  - simpl. unfold ret. rewrite app_nil_r. reflexivity.
  - simpl. unfold bind. unfold FormData_append at 1. simpl.
    rewrite <- (Nat.add_0_r (length store)) at 1.
    rewrite alter_app_r. simpl.
    rewrite IH, <- app_assoc. reflexivity.
Qed.

(** An attempt of [uploadFiles] builds its form, then runs the [try] /
    [catch] statement on a request that refers to that form. *)
Lemma upload_attempt_spec (maxAttempts attempt : Z) (w : World) :
  upload_attempt fetch_impl Math_random c endpoint files fieldName
                 maxAttempts attempt w
  = guarded_fetch fetch_impl Math_random c
                  "Upload failed with status " "Upload timeout"
                  maxAttempts attempt
                  (upload_init c endpoint (length (forms w)))
                  (upload_prep fieldName files w).
Proof.
  unfold upload_attempt, bind at 1, new_FormData. simpl.
  unfold bind at 1.
  rewrite (forEach_append files (forms w) []). reflexivity.
Qed.

Section Run.

Variable w0 : World.

Local Abbreviation reqs := (fun k : nat => upload_init c endpoint (length (forms w0) + k)).
Local Abbreviation Inv :=
  (fun (k : nat) (w : World) =>
     forms w = forms w0 ++ replicate k (form_entries fieldName files)).

Lemma upload_body_spec (k : nat) (a : Z) (w : World) :
  Inv k w ->
  upload_attempt fetch_impl Math_random c endpoint files fieldName
                 upload_budget a w
  = guarded_fetch fetch_impl Math_random c
                  "Upload failed with status " "Upload timeout"
                  upload_budget a (reqs k) (upload_prep fieldName files w).
Proof.
  cbv beta. intros HI.
  rewrite upload_attempt_spec, HI, length_app, length_replicate.
  reflexivity.
Qed.

Lemma upload_Inv_step (k : nat) (w w' : World) :
  Inv k w -> forms w' = forms (upload_prep fieldName files w) -> Inv (S k) w'.
Proof.
  cbv beta. intros HI Hw'. rewrite Hw'. simpl.
  rewrite HI, replicate_cons_app, app_assoc. reflexivity.
Qed.

Lemma upload_prep_fetch_requests (w : World) :
  fetch_requests (trace (upload_prep fieldName files w)) = fetch_requests (trace w).
Proof. simpl. rewrite fetch_requests_app. simpl. apply app_nil_r. Qed.

Lemma upload_prep_sleeps (w : World) :
  sleeps (trace (upload_prep fieldName files w)) = sleeps (trace w).
Proof. simpl. rewrite sleeps_app. simpl. apply app_nil_r. Qed.

Lemma upload_Inv_start : Inv 0%nat w0.
Proof. simpl. rewrite app_nil_r. reflexivity. Qed.

Lemma upload_trace :
  exists n : nat,
    (n <= Z.to_nat upload_budget)%nat
    /\ forms (snd (upload w0))
       = forms w0 ++ replicate n (form_entries fieldName files)
    /\ fetch_requests (trace (snd (upload w0)))
       = fetch_requests (trace w0) ++ map reqs (seq 0 n).
Proof.
  destruct (attempts_trace fetch_impl Math_random c
              "Upload failed with status " "Upload timeout"
              "Upload failed after retries" upload_budget
              (upload_attempt fetch_impl Math_random c endpoint files fieldName
                              upload_budget)
              reqs (upload_prep fieldName files) Inv
              upload_body_spec ltac:(reflexivity) ltac:(reflexivity)
              upload_prep_fetch_requests upload_Inv_step
              (Z.to_nat upload_budget) 0%nat 0 None w0 upload_Inv_start)
    as (n & Hn & _ & HI & _ & Ht).
  exists n. repeat split; assumption.
Qed.

Lemma upload_exhaust (r : nat) :
  maxRetries (retryConfig c) = Z.of_nat r ->
  (forall k, (k <= r)%nat ->
     retryable_failure "Upload failed with status " "Upload timeout"
       (fetch_impl (fetchCalls w0 + k) (reqs k)) = true) ->
  exists e w',
    upload w0 = (Abrupt (ThrownChaindoc e), w')
    /\ isRetryable e = true
    /\ fetch_requests (trace w') = fetch_requests (trace w0) ++ map reqs (seq 0 (S r))
    /\ forms w' = forms w0 ++ replicate (S r) (form_entries fieldName files).
Proof.
  intros Hr Hall.
  assert (Hbudget : Z.to_nat upload_budget = S r) by lia.
  destruct (attempts_exhaust fetch_impl Math_random c
              "Upload failed with status " "Upload timeout"
              "Upload failed after retries" upload_budget
              (upload_attempt fetch_impl Math_random c endpoint files fieldName
                              upload_budget)
              reqs (upload_prep fieldName files) Inv
              upload_body_spec ltac:(reflexivity) ltac:(reflexivity)
              upload_prep_fetch_requests upload_prep_sleeps upload_Inv_step
              r 0%nat 0 None w0 upload_Inv_start ltac:(lia) Hall)
    as (e & w' & Hrun & _ & He & _ & Ht & _ & HI).
  exists e, w'. unfold uploadFiles. rewrite Hbudget.
  repeat split; assumption.
Qed.

End Run.

(** C8.  [uploadFiles] issues between zero and [maxRetries + 1] transport
    calls; the call of each attempt carries a form of its own, built
    during that attempt at a new place of the store from the whole file
    list, and no header except Authorization; and when every attempt of
    the budget ends in a retryable failure, all [maxRetries + 1] attempts
    are made, [uploadFiles] having no option that shortens the budget. *)
Theorem upload_builds_fresh_form_per_attempt (w : World) :
  (exists n : nat,
     (n <= Z.to_nat (maxRetries (retryConfig c) + 1))%nat
     /\ fetch_requests (trace (snd (upload w)))
        = fetch_requests (trace w)
          ++ map (fun k => upload_init c endpoint (length (forms w) + k)) (seq 0 n)
     /\ forms (snd (upload w))
        = forms w ++ replicate n (form_entries fieldName files))
  /\ (forall id : nat,
        req_body (upload_init c endpoint id) = BodyForm id
        /\ req_headers (upload_init c endpoint id)
           = {[ "Authorization" := "Bearer " +:+ secretKey c ]}
        /\ req_headers (upload_init c endpoint id) !! "Content-Type" = None)
  /\ (forall r : nat,
        maxRetries (retryConfig c) = Z.of_nat r ->
        (forall k, (k <= r)%nat ->
           retryable_failure "Upload failed with status " "Upload timeout"
             (fetch_impl (fetchCalls w + k)
                         (upload_init c endpoint (length (forms w) + k))) = true) ->
        exists e w',
          upload w = (Abrupt (ThrownChaindoc e), w')
          /\ isRetryable e = true
          /\ length (fetch_requests (trace w'))
             = (length (fetch_requests (trace w)) + S r)%nat
          /\ forms w' = forms w ++ replicate (S r) (form_entries fieldName files)).
Proof.
  split; [| split].
  - destruct (upload_trace w) as (n & Hn & Hforms & Ht).
    exists n. repeat split; assumption.
  - intros id. repeat split.
  - intros r Hr Hall.
    destruct (upload_exhaust w r Hr Hall) as (e & w' & Hrun & He & Ht & Hforms).
    exists e, w'. repeat split; try assumption.
    rewrite Ht, length_app, length_map, length_seq. reflexivity.
Qed.

End Upload.

(** * Instances *)

(** X20 at a transport that always answers 503 with a JSON body, with
    [maxRetries = 2]:
    three transport calls, then the 503 error, flagged retryable. *)
Lemma request_exhausts_retry_budget_witness :
  exists e w',
    request (always (Resolved unavailable)) no_jitter stub_stringify
            (demo_client 2) "/api/v1/me" no_options empty_world
    = (Abrupt (ThrownChaindoc e), w')
    /\ statusCode e = Some 503
    /\ isRetryable e = true
    /\ length (fetch_requests (trace w')) = 3%nat.
Proof.
  destruct (request_exhausts_retry_budget
              (always (Resolved unavailable)) no_jitter stub_stringify
              (demo_client 2) "/api/v1/me" no_options 2 empty_world
              eq_refl eq_refl (fun k _ => eq_refl))
    as (e & w' & Hrun & _ & He & Hst & Ht & _).
  exists e, w'. split; [exact Hrun |]. split; [exact (Hst unavailable eq_refl) |].
  split; [exact He |]. rewrite Ht. reflexivity.
Defined.

(** C3 at a 404 response whose JSON body carries a message. *)
Lemma status_error_fields_witness :
  fst (request_attempt (always (Resolved not_found_json)) no_jitter stub_stringify
                       (demo_client 3) "/api/v1/documents/42" no_options 4 0
                       empty_world)
  = Abrupt (ThrownChaindoc
              (mkChaindocError "Document not found" (Some 404)
                 (JObject [("message", JString "Document not found")]) false)).
Proof.
  rewrite (status_error_fields
             (always (Resolved not_found_json)) no_jitter stub_stringify
             (demo_client 3) "/api/v1/documents/42" no_options 4 0
             not_found_json empty_world eq_refl eq_refl ltac:(discriminate)).
  reflexivity.
Defined.

(** C3, as stated, fails.  A 404 response served as plain text whose body
    would decode to an object with a [message] gets the generic message;
    the generic message starts with a capital letter; and a 500 response
    announced with content-length [0] raises no error. *)
Lemma status_message_differs_from_stated :
  (exists e w',
     request (always (Resolved not_found_plain)) no_jitter stub_stringify
             (demo_client 0) "/api/v1/documents/42" no_options empty_world
     = (Abrupt (ThrownChaindoc e), w')
     /\ message e = "Request failed with status 404"
     /\ stated_status_message not_found_plain = "Document not found"
     /\ message e <> stated_status_message not_found_plain)
  /\ (exists e w',
        request (always (Resolved not_found_bare)) no_jitter stub_stringify
                (demo_client 0) "/api/v1/documents/42" no_options empty_world
        = (Abrupt (ThrownChaindoc e), w')
        /\ message e = "Request failed with status 404"
        /\ stated_status_message not_found_bare = "request failed with status 404"
        /\ message e <> stated_status_message not_found_bare)
  /\ (ok server_error_empty = false
      /\ fst (request (always (Resolved server_error_empty)) no_jitter
                      stub_stringify (demo_client 3) "/api/v1/me" no_options
                      empty_world)
         = Normal JUndefined).
Proof.
  split; [| split].
  - eexists. eexists. split; [reflexivity |].
    split; [reflexivity |]. split; [reflexivity |]. discriminate.
  - eexists. eexists. split; [reflexivity |].
    split; [reflexivity |]. split; [reflexivity |]. discriminate.
  - split; reflexivity.
Qed.

(** C4 at a transport that always aborts, with [maxRetries = 1]. *)
Lemma transport_failure_classification_witness :
  exists w',
    request (always aborted) no_jitter stub_stringify
            (demo_client 1) "/api/v1/me" no_options empty_world
    = (Abrupt (ThrownChaindoc
                 (mkChaindocError "Request timeout" None JUndefined true)), w')
    /\ length (fetch_requests (trace w')) = 2%nat.
Proof.
  destruct (proj1 (transport_failure_classification
                     (always aborted) no_jitter stub_stringify
                     (demo_client 1) "/api/v1/me" no_options empty_world)
                  eq_refl eq_refl
                  (fun k _ => ex_intro _ "This operation was aborted" eq_refl))
    as (w' & Hrun & Ht & _).
  exists w'. split; [exact Hrun |]. rewrite Ht. reflexivity.
Defined.

(** C4, as stated, fails: the message of the error thrown after the two
    aborted attempts is not the stated one. *)
Lemma timeout_message_differs_from_stated :
  exists e w',
    request (always aborted) no_jitter stub_stringify
            (demo_client 1) "/api/v1/me" no_options empty_world
    = (Abrupt (ThrownChaindoc e), w')
    /\ length (fetch_requests (trace w')) = 2%nat
    /\ statusCode e = None
    /\ isRetryable e = true
    /\ message e = "Request timeout"
    /\ message e <> stated_timeout_message.
Proof.
  eexists. eexists. split; [reflexivity |].
  repeat (split; [reflexivity |]). discriminate.
Qed.


(** C7 at a key without the prefix and at a key with it. *)
Lemma constructor_fails_iff_bad_key_witness :
  (exists e, constructor bad_key_config = inl e)
  /\ (exists c, constructor (demo_config 3) = inr c /\ secretKey c = "sk_test_key").
Proof.
  split.
  - exact (proj2 (proj1 (constructor_fails_iff_bad_key bad_key_config)) eq_refl).
  - exact (proj1 (proj2 (constructor_fails_iff_bad_key (demo_config 3)))
                 "test_key" eq_refl).
Defined.

(** C8 at a transport that always answers 503, with [maxRetries = 1]: two
    transport calls, each with a form of its own holding both files. *)
Lemma upload_builds_fresh_form_per_attempt_witness :
  exists e w',
    uploadFiles (always (Resolved unavailable)) no_jitter (demo_client 1)
                "/api/v1/media/upload" two_files "media" empty_world
    = (Abrupt (ThrownChaindoc e), w')
    /\ length (fetch_requests (trace w')) = 2%nat
    /\ forms w' = [form_entries "media" two_files; form_entries "media" two_files].
Proof.
  destruct (proj2 (proj2 (upload_builds_fresh_form_per_attempt
                            (always (Resolved unavailable)) no_jitter
                            (demo_client 1) "/api/v1/media/upload" two_files
                            "media" empty_world))
                  1%nat eq_refl (fun k _ => eq_refl))
    as (e & w' & Hrun & _ & Ht & Hforms).
  exists e, w'. split; [exact Hrun |]. split; assumption.
Defined.

(** C10 at a POST whose body is the number 0: the call is issued, without
    a body. *)
Lemma request_body_iff_truthy_witness :
  exists n : nat,
    (1 <= n)%nat
    /\ fetch_requests
         (trace (snd (post (always (Resolved no_content)) no_jitter stub_stringify
                           (demo_client 3) "/api/v1/documents" (JNumber 0)
                           no_options empty_world)))
       = replicate n
           {| req_url := "https://api.chaindoc.io/api/v1/documents";
              req_method := POST;
              req_headers :=
                <["Content-Type" := "application/json"]>
                  (<["Authorization" := "Bearer sk_test_key"]> ∅);
              req_body := BodyAbsent;
              req_abortAfter := 30000 |}.
Proof.
  destruct (proj1 (request_body_iff_truthy
                     (always (Resolved no_content)) no_jitter stub_stringify
                     (demo_client 3) "/api/v1/documents"
                     (with_method_body no_options POST (JNumber 0)) empty_world))
    as (n & _ & Hpos & Ht).
  exists n. split; [apply Hpos; reflexivity |].
  unfold post. rewrite Ht. reflexivity.
Defined.

(** * Further properties of the request core *)

(** An attempt either goes on (a retryable failure with attempts left,
    one backoff), or decides the call. *)
Lemma attempt_result_cases c failed timed_out mx a req fr u w :
  (retryable_failure failed timed_out fr = true
   /\ a < mx - 1
   /\ exists e,
        failure_of failed timed_out fr = Some e
        /\ attempt_result c failed timed_out mx a req fr u w
           = (Normal (Continue e),
              log (EvSleep (getRetryDelay c a u))
                  (after_random (after_attempt req fr w))))
  \/ ((retryable_failure failed timed_out fr = false \/ mx - 1 <= a)
      /\ attempt_result c failed timed_out mx a req fr u w
         = (match outcome_of failed timed_out fr with
            | Normal v => Normal (Return v)
            | Abrupt t => Abrupt t
            end,
            after_attempt req fr w)).
Proof.
  unfold attempt_result, retryable_failure, outcome_of, after_attempt.
  destruct (failure_of failed timed_out fr) as [e |].
  - destruct (isRetryable e) eqn:He; simpl.
    + destruct (Z.ltb_spec a (mx - 1)) as [Hlt | Hge].
      * left. split; [reflexivity |]. split; [exact Hlt |].
        exists e. split; reflexivity.
      * right. split; [right; lia | reflexivity].
    + right. split; [left; reflexivity | reflexivity].
  - right. split; [left; reflexivity | reflexivity].
Qed.

Lemma backoff_delays_S (R : nat -> Q) c (a : Z) (d n : nat) :
  backoff_delays R c a d (S n)
  = getRetryDelay c a (R d) :: backoff_delays R c (a + 1) (S d) n.
Proof.
  unfold backoff_delays. simpl. rewrite Z.add_0_r, Nat.add_0_r. f_equal.
  rewrite <- seq_shift, map_map. apply map_ext. intros i.
  f_equal; [lia | f_equal; lia].
Qed.

Lemma after_attempt_fetch_requests req fr w :
  fetch_requests (trace (after_attempt req fr w)) = fetch_requests (trace w) ++ [req].
Proof.
  unfold after_attempt. destruct (decodes fr); simpl;
    rewrite ?fetch_requests_app; simpl; rewrite ?fetch_requests_app; simpl;
    rewrite ?app_nil_r; reflexivity.
Qed.

Lemma after_attempt_sleeps req fr w :
  sleeps (trace (after_attempt req fr w)) = sleeps (trace w).
Proof.
  unfold after_attempt. destruct (decodes fr); simpl;
    rewrite ?sleeps_app; simpl; rewrite ?sleeps_app; simpl;
    rewrite ?app_nil_r; reflexivity.
Qed.

Lemma after_attempt_counters req fr w :
  fetchCalls (after_attempt req fr w) = S (fetchCalls w)
  /\ randomCalls (after_attempt req fr w) = randomCalls w
  /\ forms (after_attempt req fr w) = forms w.
Proof. unfold after_attempt. destruct (decodes fr); repeat split. Qed.

(** ** The shape of every run of the attempt loop *)

Section Shape.

Variable fetch_impl : nat -> FetchRequest -> FetchResult.
Variable Math_random : nat -> Q.
Variables (c : HttpClient) (failed timed_out exhausted : string).
Variable maxAttempts : Z.
Variable body : Z -> M LoopStep.
Variable reqs : nat -> FetchRequest.
Variable prep : World -> World.
Variable Inv : nat -> World -> Prop.

Hypothesis body_spec : forall k a w,
  Inv k w ->
  body a w
  = guarded_fetch fetch_impl Math_random c failed timed_out maxAttempts a
                  (reqs k) (prep w).
Hypothesis prep_fetchCalls : forall w, fetchCalls (prep w) = fetchCalls w.
Hypothesis prep_randomCalls : forall w, randomCalls (prep w) = randomCalls w.
Hypothesis prep_fetch_requests : forall w,
  fetch_requests (trace (prep w)) = fetch_requests (trace w).
Hypothesis prep_sleeps : forall w, sleeps (trace (prep w)) = sleeps (trace w).
Hypothesis Inv_step : forall k w w',
  Inv k w -> forms w' = forms (prep w) -> Inv (S k) w'.

(** A run with a non-empty budget stops at its first attempt that is not
    a retryable failure, or at the last attempt of the budget: that
    attempt decides how the run ends, and each earlier attempt is followed
    by one backoff. *)
Lemma attempts_shape (remaining : nat) : forall k a last w,
  Inv k w ->
  maxAttempts = a + Z.of_nat remaining ->
  (0 < remaining)%nat ->
  exists j : nat,
    (j < remaining)%nat
    /\ (forall i, (i < j)%nat ->
          retryable_failure failed timed_out
            (fetch_impl (fetchCalls w + i) (reqs (k + i))) = true)
    /\ ((S j < remaining)%nat ->
        retryable_failure failed timed_out
          (fetch_impl (fetchCalls w + j) (reqs (k + j))) = false)
    /\ fst (attempts body exhausted remaining a last w)
       = outcome_of failed timed_out (fetch_impl (fetchCalls w + j) (reqs (k + j)))
    /\ fetchCalls (snd (attempts body exhausted remaining a last w))
       = (fetchCalls w + S j)%nat
    /\ randomCalls (snd (attempts body exhausted remaining a last w))
       = (randomCalls w + j)%nat
    /\ fetch_requests (trace (snd (attempts body exhausted remaining a last w)))
       = fetch_requests (trace w) ++ map reqs (seq k (S j))
    /\ sleeps (trace (snd (attempts body exhausted remaining a last w)))
       = sleeps (trace w) ++ backoff_delays Math_random c a (randomCalls w) j
    /\ Inv (k + S j) (snd (attempts body exhausted remaining a last w)).
Proof.
  induction remaining as [| m IH]; intros k a last w HI Hmax Hpos; [lia |].
  assert (Hbody : body a w
    = attempt_result c failed timed_out maxAttempts a (reqs k)
        (fetch_impl (fetchCalls w) (reqs k)) (Math_random (randomCalls w)) (prep w)).
  { rewrite (body_spec k a w HI), guarded_fetch_spec.
    rewrite prep_fetchCalls, prep_randomCalls. reflexivity. }
  set (fr := fetch_impl (fetchCalls w) (reqs k)) in *.
  destruct (after_attempt_counters (reqs k) fr (prep w)) as (Hfc & Hrc & Hforms).
  pose proof (after_attempt_fetch_requests (reqs k) fr (prep w)) as Hfr.
  pose proof (after_attempt_sleeps (reqs k) fr (prep w)) as Hsl.
  rewrite prep_fetchCalls in Hfc. rewrite prep_randomCalls in Hrc.
  rewrite prep_fetch_requests in Hfr. rewrite prep_sleeps in Hsl.
  simpl attempts. unfold bind. rewrite Hbody.
  destruct (attempt_result_cases c failed timed_out maxAttempts a (reqs k) fr
              (Math_random (randomCalls w)) (prep w))
    as [(Hretry & Hlt & e & Hfail & ->) | (Hstop & ->)].
  - set (w1 := log (EvSleep (getRetryDelay c a (Math_random (randomCalls w))))
                   (after_random (after_attempt (reqs k) fr (prep w)))).
    assert (HI1 : Inv (S k) w1) by (apply (Inv_step k w); [exact HI | exact Hforms]).
    assert (Hfc1 : fetchCalls w1 = S (fetchCalls w)) by exact Hfc.
    assert (Hrc1 : randomCalls w1 = S (randomCalls w)) by (simpl; rewrite Hrc; reflexivity).
    assert (Hfr1 : fetch_requests (trace w1) = fetch_requests (trace w) ++ [reqs k]).
    { unfold w1. simpl. rewrite fetch_requests_app. simpl.
      rewrite app_nil_r. exact Hfr. }
    assert (Hsl1 : sleeps (trace w1)
              = sleeps (trace w) ++ [getRetryDelay c a (Math_random (randomCalls w))]).
    { unfold w1. simpl. rewrite sleeps_app. simpl. rewrite Hsl. reflexivity. }
    destruct (IH (S k) (a + 1) (Some e) w1 HI1 ltac:(lia) ltac:(lia))
      as (j & Hj & Hbefore & Hafter & Hout & Hf & Hr & Ht & Hs & HIj).
    exists (S j). rewrite Hfc1 in *. rewrite Hrc1 in *.
    replace (S (fetchCalls w) + j)%nat with (fetchCalls w + S j)%nat in * by lia.
    replace (S k + j)%nat with (k + S j)%nat in * by lia.
    replace (S k + S j)%nat with (k + S (S j))%nat in * by lia.
    split; [lia |]. split.
    { intros i Hi. destruct i as [| i].
      - rewrite !Nat.add_0_r. exact Hretry.
      - specialize (Hbefore i ltac:(lia)).
        replace (S (fetchCalls w) + i)%nat with (fetchCalls w + S i)%nat in Hbefore by lia.
        replace (S k + i)%nat with (k + S i)%nat in Hbefore by lia.
        exact Hbefore. }
    split; [intros Hlt'; apply Hafter; lia |].
    split; [exact Hout |]. split; [lia |]. split; [lia |].
    split.
    { rewrite Ht, Hfr1, <- app_assoc. reflexivity. }
    split; [| exact HIj].
    rewrite Hs, Hsl1, <- app_assoc, backoff_delays_S. reflexivity.
  - exists 0%nat. rewrite !Nat.add_0_r.
    assert (HI1 : Inv (S k) (after_attempt (reqs k) fr (prep w)))
      by (apply (Inv_step k w); [exact HI | exact Hforms]).
    replace (k + 1)%nat with (S k) by lia.
    split; [lia |]. split; [intros i Hi; lia |].
    split.
    { intros Hm. destruct Hstop as [Hno | Hlast]; [exact Hno | lia]. }
    fold fr.
    destruct (outcome_of failed timed_out fr) as [v | t]; simpl;
      (split; [reflexivity |]); (split; [lia |]); (split; [lia |]);
      (split; [exact Hfr |]); (split; [| exact HI1]);
      unfold backoff_delays; simpl; rewrite app_nil_r; exact Hsl.
Qed.

End Shape.

Lemma after_attempt_json_decodes req fr w :
  json_decodes (trace (after_attempt req fr w))
  = (json_decodes (trace w) + (if decodes fr then 1 else 0))%nat.
Proof.
  unfold after_attempt. destruct (decodes fr); simpl;
    rewrite ?json_decodes_app; simpl; rewrite ?json_decodes_app; simpl;
    unfold json_decodes; simpl; lia.
Qed.

Lemma decodes_count_snoc fetch_impl reqs (n : nat) : forall first k,
  decodes_count fetch_impl reqs first k (S n)
  = (decodes_count fetch_impl reqs first k n
     + (if decodes (fetch_impl (first + n)%nat (reqs (k + n)%nat)) then 1 else 0))%nat.
Proof.
  induction n as [| n IH]; intros first k.
  - simpl. rewrite !Nat.add_0_r. lia.
  - change (decodes_count fetch_impl reqs first k (S (S n)))
      with ((if decodes (fetch_impl first (reqs k)) then 1 else 0)
            + decodes_count fetch_impl reqs (S first) (S k) (S n))%nat.
    rewrite IH. simpl decodes_count.
    replace (S first + n)%nat with (first + S n)%nat by lia.
    replace (S k + n)%nat with (k + S n)%nat by lia. lia.
Qed.

(** ** The attempt that decides a run *)

Section Decisive.

Variable fetch_impl : nat -> FetchRequest -> FetchResult.
Variable Math_random : nat -> Q.
Variables (c : HttpClient) (failed timed_out exhausted : string).
Variable maxAttempts : Z.
Variable body : Z -> M LoopStep.
Variable reqs : nat -> FetchRequest.
Variable prep : World -> World.
Variable Inv : nat -> World -> Prop.

Hypothesis body_spec : forall k a w,
  Inv k w ->
  body a w
  = guarded_fetch fetch_impl Math_random c failed timed_out maxAttempts a
                  (reqs k) (prep w).
Hypothesis prep_fetchCalls : forall w, fetchCalls (prep w) = fetchCalls w.
Hypothesis prep_randomCalls : forall w, randomCalls (prep w) = randomCalls w.
Hypothesis prep_json_decodes : forall w,
  json_decodes (trace (prep w)) = json_decodes (trace w).
Hypothesis Inv_step : forall k w w',
  Inv k w -> forms w' = forms (prep w) -> Inv (S k) w'.

(** When the first [j] attempts end in retryable failures and attempt [j]
    does not, or is the last of the budget, attempt [j] decides the run,
    and [response.json()] has been invoked by those of the attempts up to
    [j] that decode their response, and by nothing else. *)
Lemma attempts_decisive (j : nat) : forall remaining k a last w,
  Inv k w ->
  maxAttempts = a + Z.of_nat remaining ->
  (j < remaining)%nat ->
  (forall i, (i < j)%nat ->
     retryable_failure failed timed_out
       (fetch_impl (fetchCalls w + i) (reqs (k + i))) = true) ->
  (retryable_failure failed timed_out
     (fetch_impl (fetchCalls w + j) (reqs (k + j))) = false
   \/ S j = remaining) ->
  fst (attempts body exhausted remaining a last w)
  = outcome_of failed timed_out (fetch_impl (fetchCalls w + j) (reqs (k + j)))
  /\ json_decodes (trace (snd (attempts body exhausted remaining a last w)))
     = (json_decodes (trace w)
        + decodes_count fetch_impl reqs (fetchCalls w) k (S j))%nat.
Proof.
  induction j as [| j IH]; intros remaining k a last w HI Hmax Hj Hbefore Hstop;
    (destruct remaining as [| m]; [lia |]).
  - rewrite !Nat.add_0_r in *.
    assert (Hbody : body a w
      = attempt_result c failed timed_out maxAttempts a (reqs k)
          (fetch_impl (fetchCalls w) (reqs k)) (Math_random (randomCalls w)) (prep w)).
    { rewrite (body_spec k a w HI), guarded_fetch_spec.
      rewrite prep_fetchCalls, prep_randomCalls. reflexivity. }
    set (fr := fetch_impl (fetchCalls w) (reqs k)) in *.
    pose proof (after_attempt_json_decodes (reqs k) fr (prep w)) as Hjd.
    rewrite prep_json_decodes in Hjd.
    simpl attempts. unfold bind. rewrite Hbody.
    destruct (attempt_result_cases c failed timed_out maxAttempts a (reqs k) fr
                (Math_random (randomCalls w)) (prep w))
      as [(Hretry & Hlt & _) | (_ & ->)].
    { destruct Hstop as [Hno | Hlast]; [congruence | lia]. }
    simpl decodes_count. fold fr.
    destruct (outcome_of failed timed_out fr) as [v | t]; simpl;
      (split; [reflexivity | rewrite Hjd; lia]).
  - assert (Hbody : body a w
      = attempt_result c failed timed_out maxAttempts a (reqs k)
          (fetch_impl (fetchCalls w) (reqs k)) (Math_random (randomCalls w)) (prep w)).
    { rewrite (body_spec k a w HI), guarded_fetch_spec.
      rewrite prep_fetchCalls, prep_randomCalls. reflexivity. }
    set (fr := fetch_impl (fetchCalls w) (reqs k)) in *.
    destruct (after_attempt_counters (reqs k) fr (prep w)) as (Hfc & _ & Hforms).
    rewrite prep_fetchCalls in Hfc.
    pose proof (after_attempt_json_decodes (reqs k) fr (prep w)) as Hjd.
    rewrite prep_json_decodes in Hjd.
    assert (Hfirst : retryable_failure failed timed_out fr = true).
    { specialize (Hbefore 0%nat ltac:(lia)). rewrite !Nat.add_0_r in Hbefore.
      exact Hbefore. }
    simpl attempts. unfold bind. rewrite Hbody.
    destruct (attempt_result_cases c failed timed_out maxAttempts a (reqs k) fr
                (Math_random (randomCalls w)) (prep w))
      as [(_ & _ & e & _ & ->) | ([Hno | Hlast] & _)]; [| congruence | lia].
    set (w1 := log (EvSleep (getRetryDelay c a (Math_random (randomCalls w))))
                   (after_random (after_attempt (reqs k) fr (prep w)))).
    assert (HI1 : Inv (S k) w1) by (apply (Inv_step k w); [exact HI | exact Hforms]).
    assert (Hfc1 : fetchCalls w1 = S (fetchCalls w)) by exact Hfc.
    assert (Hjd1 : json_decodes (trace w1)
              = (json_decodes (trace w) + (if decodes fr then 1 else 0))%nat).
    { unfold w1. simpl. rewrite json_decodes_app. rewrite Hjd.
      unfold json_decodes. simpl. lia. }
    destruct (IH m (S k) (a + 1) (Some e) w1 HI1 ltac:(lia) ltac:(lia))
      as [Hout Hdec].
    { intros i Hi. specialize (Hbefore (S i) ltac:(lia)). rewrite Hfc1.
      replace (S (fetchCalls w) + i)%nat with (fetchCalls w + S i)%nat by lia.
      replace (S k + i)%nat with (k + S i)%nat by lia. exact Hbefore. }
    { rewrite Hfc1.
      replace (S (fetchCalls w) + j)%nat with (fetchCalls w + S j)%nat by lia.
      replace (S k + j)%nat with (k + S j)%nat by lia.
      destruct Hstop as [Hno | Hlast]; [left; exact Hno | right; lia]. }
    rewrite Hfc1 in Hout, Hdec.
    replace (S (fetchCalls w) + j)%nat with (fetchCalls w + S j)%nat in Hout by lia.
    replace (S k + j)%nat with (k + S j)%nat in Hout by lia.
    split; [exact Hout |].
    rewrite Hdec, Hjd1.
    change (decodes_count fetch_impl reqs (fetchCalls w) k (S (S j)))
      with ((if decodes fr then 1 else 0)
            + decodes_count fetch_impl reqs (S (fetchCalls w)) (S k) (S j))%nat.
    lia.
Qed.

End Decisive.

(** The delay never leaves the range the cap allows: it is not negative
    and not above [Math.round] of [maxDelayMs + maxDelayMs * 0.25]. *)
Lemma getRetryDelay_range (c : HttpClient) (a : Z) (u : Q) :
  (0 <= baseDelayMs (retryConfig c))%Q ->
  (0 <= maxDelayMs (retryConfig c))%Q ->
  is_double (maxDelayMs (retryConfig c)) ->
  (0 <= u)%Q -> (u < 1)%Q ->
  0 <= getRetryDelay c a u
       <= Math_round (double_add (maxDelayMs (retryConfig c))
                                 (double_mul (maxDelayMs (retryConfig c)) 0.25)).
Proof.
  intros Hb Hm Hdm Hu0 Hu1.
  pose proof (clampedDelay_nonneg c a Hb Hm) as Hd.
  pose proof (clampedDelay_le_max c a) as Hcap.
  pose proof (clampedDelay_is_double c a Hdm) as Hdd. unfold is_double in Hdd.
  destruct (getRetryDelay_between c a u Hb Hm Hu0 Hu1) as [Hlo Hhi].
  set (d := clampedDelay c a) in *. set (m := maxDelayMs (retryConfig c)) in *.
  assert (Hq : (double_mul d 0.25 <= binary64 d)%Q)
    by (unfold double_mul; apply binary64_le; lra).
  assert (Hqm : (double_mul d 0.25 <= double_mul m 0.25)%Q)
    by (unfold double_mul; apply binary64_le; lra).
  split.
  - etransitivity; [| exact Hlo]. apply Math_round_ge_int.
    change (inject_Z 0) with 0%Q. unfold double_sub. apply binary64_nonneg. lra.
  - etransitivity; [exact Hhi |]. apply Math_round_le.
    unfold double_add. apply binary64_le. lra.
Qed.

(** ** Every run of request *)

Section RequestRuns.

Variable fetch_impl : nat -> FetchRequest -> FetchResult.
Variable Math_random : nat -> Q.
Variable JSON_stringify : JsValue -> string.
Variables (c : HttpClient) (endpoint : string) (options : RequestOptions).

Local Abbreviation req := (request_init JSON_stringify c endpoint options).
Local Abbreviation run := (request fetch_impl Math_random JSON_stringify c endpoint options).
Local Abbreviation budget := (request_budget c options).
Local Abbreviation result_at w i := (fetch_impl (fetchCalls w + i)%nat req).
Local Abbreviation retryable :=
  (retryable_failure "Request failed with status " "Request timeout").
Local Abbreviation outcome :=
  (outcome_of "Request failed with status " "Request timeout").

Lemma request_shape (w : World) :
  0 < budget ->
  exists j : nat,
    (j < Z.to_nat budget)%nat
    /\ (forall i, (i < j)%nat -> retryable (result_at w i) = true)
    /\ ((S j < Z.to_nat budget)%nat -> retryable (result_at w j) = false)
    /\ fst (run w) = outcome (result_at w j)
    /\ fetchCalls (snd (run w)) = (fetchCalls w + S j)%nat
    /\ randomCalls (snd (run w)) = (randomCalls w + j)%nat
    /\ fetch_requests (trace (snd (run w)))
       = fetch_requests (trace w) ++ replicate (S j) req
    /\ sleeps (trace (snd (run w)))
       = sleeps (trace w) ++ backoff_delays Math_random c 0 (randomCalls w) j.
Proof.
  intros Hpos. rewrite request_unfold.
  destruct (attempts_shape fetch_impl Math_random c
              "Request failed with status " "Request timeout"
              "Request failed after retries" budget
              (request_attempt fetch_impl Math_random JSON_stringify c endpoint
                               options budget)
              (fun _ => req) (fun w => w) (fun _ _ => True)
              ltac:(reflexivity) ltac:(reflexivity) ltac:(reflexivity)
              ltac:(reflexivity) ltac:(reflexivity) ltac:(trivial)
              (Z.to_nat budget) 0%nat 0 None w I ltac:(lia) ltac:(lia))
    as (j & Hj & Hbefore & Hafter & Hout & Hf & Hr & Ht & Hs & _).
  exists j. rewrite map_const_seq in Ht. repeat split; assumption.
Qed.

(** The attempt that decides a run of [request], and the decodings of the
    run. *)
Lemma request_decisive (j : nat) (w : World) :
  (j < Z.to_nat budget)%nat ->
  (forall i, (i < j)%nat -> retryable (result_at w i) = true) ->
  retryable (result_at w j) = false \/ S j = Z.to_nat budget ->
  fst (run w) = outcome (result_at w j)
  /\ json_decodes (trace (snd (run w)))
     = (json_decodes (trace w)
        + decodes_count fetch_impl (fun _ => req) (fetchCalls w) 0 (S j))%nat.
Proof.
  intros Hj Hbefore Hstop. rewrite request_unfold.
  exact (attempts_decisive fetch_impl Math_random c
           "Request failed with status " "Request timeout"
           "Request failed after retries" budget
           (request_attempt fetch_impl Math_random JSON_stringify c endpoint
                            options budget)
           (fun _ => req) (fun w => w) (fun _ _ => True)
           ltac:(reflexivity) ltac:(reflexivity) ltac:(reflexivity)
           ltac:(reflexivity) ltac:(trivial)
           j (Z.to_nat budget) 0%nat 0 None w I ltac:(lia) Hj Hbefore Hstop).
Qed.

(** C6.  Whichever attempt of a call receives a 2xx response, after
    retryable failures in all earlier attempts: if the status is 204 or
    the content-length header is [0], or if the content type does not
    indicate JSON, the call returns [undefined] and that attempt does not
    invoke [response.json()] (the decodings of the run are those of the
    earlier attempts); and if decoding the body fails, the call still
    returns [undefined] instead of throwing. *)
Theorem success_without_payload (j : nat) (resp : Response) (w : World) :
  (j < Z.to_nat budget)%nat ->
  (forall i, (i < j)%nat -> retryable (result_at w i) = true) ->
  result_at w j = Resolved resp ->
  ok resp = true ->
  let earlier := decodes_count fetch_impl (fun _ => req) (fetchCalls w) 0 j in
  (status resp = 204 \/ resp_headers resp !! "content-length" = Some "0" ->
   fst (run w) = Normal JUndefined
   /\ json_decodes (trace (snd (run w))) = (json_decodes (trace w) + earlier)%nat)
  /\ (indicates_json (resp_headers resp !! "content-type") = false ->
      fst (run w) = Normal JUndefined
      /\ json_decodes (trace (snd (run w))) = (json_decodes (trace w) + earlier)%nat)
  /\ (json resp = None -> fst (run w) = Normal JUndefined).
Proof.
  intros Hj Hbefore Hfetch Hok earlier.
  assert (Hf : failure_of "Request failed with status " "Request timeout"
                 (Resolved resp) = None).
  { simpl. destruct (is_empty resp); [reflexivity |]. rewrite Hok. reflexivity. }
  assert (Hstop : retryable (result_at w j) = false).
  { rewrite Hfetch. unfold retryable_failure. rewrite Hf. reflexivity. }
  destruct (request_decisive j w Hj Hbefore (or_introl Hstop)) as [Hout Hdec].
  rewrite Hfetch in Hout. unfold outcome_of in Hout. rewrite Hf in Hout.
  rewrite decodes_count_snoc in Hdec. cbv beta in Hdec.
  rewrite Hfetch in Hdec. fold earlier in Hdec.
  rewrite Hout, Hdec. unfold value_of, decodes, payload.
  split; [| split].
  - intros Hempty.
    assert (He : is_empty resp = true).
    { unfold is_empty. destruct Hempty as [-> | ->]; [reflexivity |].
      rewrite bool_decide_eq_true_2 by reflexivity. apply orb_true_r. }
    rewrite He. simpl. split; [reflexivity | lia].
  - intros Hct. rewrite Hct, andb_false_r.
    split; [destruct (is_empty resp); reflexivity | lia].
  - intros Hjson. rewrite Hjson. simpl.
    destruct (is_empty resp); [reflexivity |].
    destruct (indicates_json (resp_headers resp !! "content-type")); reflexivity.
Qed.

(** X1.  Whatever the transport does, [request] makes at most
    [maxAttempts] transport calls, all with the same arguments, and at
    least one when the budget is not empty; it sleeps once between two
    successive calls and nowhere else, drawing one random number per
    sleep. *)
Theorem request_attempts_bounded (w : World) :
  exists n : nat,
    fetch_requests (trace (snd (run w))) = fetch_requests (trace w) ++ replicate n req
    /\ (n <= Z.to_nat budget)%nat
    /\ (0 < budget -> (1 <= n)%nat)
    /\ length (sleeps (trace (snd (run w))))
       = (length (sleeps (trace w)) + (n - 1))%nat
    /\ randomCalls (snd (run w)) = (randomCalls w + (n - 1))%nat.
Proof.
  destruct (Z.lt_ge_cases 0 budget) as [Hpos | Hempty].
  - destruct (request_shape w Hpos) as (j & Hj & _ & _ & _ & _ & Hr & Ht & Hs).
    exists (S j). rewrite Ht, Hs, Hr, length_app.
    unfold backoff_delays. rewrite length_map, length_seq.
    repeat split; lia.
  - exists 0%nat. rewrite (request_empty_budget _ _ _ _ _ _ w Hempty). simpl.
    rewrite app_nil_r. repeat split; lia.
Qed.

(** X2.  The sleeps of a run are the backoff delays of its attempts in
    order, one after each attempt but the last: the [i]-th sleep is
    [getRetryDelay] at attempt index [i] with a random number drawn for that
    sleep alone; with a random source in [0, 1), non-negative delays in the
    policy and a [maxDelayMs] that is a double, no sleep is negative or
    longer than [Math.round] of [maxDelayMs + maxDelayMs * 0.25] computed
    in doubles.  ([maxRetries] is at most 1024 and [maxDelayMs] at most
    [2^1023], so that no double involved is infinite.) *)
Theorem request_backoff_schedule (w : World) :
  (forall n, (0 <= Math_random n)%Q /\ (Math_random n < 1)%Q) ->
  maxRetries (retryConfig c) <= 1024 ->
  (0 <= baseDelayMs (retryConfig c))%Q ->
  (0 <= maxDelayMs (retryConfig c))%Q ->
  (maxDelayMs (retryConfig c) <= pow2 1023)%Q ->
  is_double (maxDelayMs (retryConfig c)) ->
  exists j : nat,
    (0 < budget ->
     fetch_requests (trace (snd (run w)))
     = fetch_requests (trace w) ++ replicate (S j) req)
    /\ sleeps (trace (snd (run w)))
       = sleeps (trace w)
         ++ map (fun i => getRetryDelay c (Z.of_nat i)
                            (Math_random (randomCalls w + i)%nat))
                (seq 0 j)
    /\ Forall (fun ms : Z =>
                 0 <= ms
                      <= Math_round
                           (double_add (maxDelayMs (retryConfig c))
                              (double_mul (maxDelayMs (retryConfig c)) 0.25)))
              (map (fun i => getRetryDelay c (Z.of_nat i)
                               (Math_random (randomCalls w + i)%nat))
                   (seq 0 j)).
Proof.
  intros Hrand _ Hb Hm _ Hdm.
  assert (Hall : forall j,
    Forall (fun ms : Z =>
              0 <= ms
                   <= Math_round
                        (double_add (maxDelayMs (retryConfig c))
                           (double_mul (maxDelayMs (retryConfig c)) 0.25)))
           (map (fun i => getRetryDelay c (Z.of_nat i)
                            (Math_random (randomCalls w + i)%nat))
                (seq 0 j))).
  { intros j. apply Forall_forall. intros ms Hin.
    apply list_elem_of_In, in_map_iff in Hin. destruct Hin as (i & <- & _).
    destruct (Hrand (randomCalls w + i)%nat) as [H0 H1].
    apply getRetryDelay_range; assumption. }
  destruct (Z.lt_ge_cases 0 budget) as [Hpos | Hempty].
  - destruct (request_shape w Hpos) as (j & _ & _ & _ & _ & _ & _ & Ht & Hs).
    exists j. split; [intros _; exact Ht |]. split; [exact Hs | apply Hall].
  - exists 0%nat. rewrite (request_empty_budget _ _ _ _ _ _ w Hempty). simpl.
    rewrite app_nil_r. split; [intros; lia |]. split; [reflexivity | constructor].
Qed.

(** X3.  Whatever [request] throws is a [ChaindocError]: transport
    failures of any kind never reach the caller as they are. *)
Theorem request_throws_only_ChaindocError (w : World) (t : Thrown) :
  fst (run w) = Abrupt t ->
  exists e : ChaindocError, t = ThrownChaindoc e.
Proof.
  intros Hthrown.
  destruct (Z.lt_ge_cases 0 budget) as [Hpos | Hempty].
  - destruct (request_shape w Hpos) as (j & _ & _ & _ & Hout & _).
    rewrite Hout in Hthrown. unfold outcome_of in Hthrown.
    destruct (failure_of _ _ (result_at w j)) as [e |]; [| discriminate].
    injection Hthrown as <-. eauto.
  - rewrite (request_empty_budget _ _ _ _ _ _ w Hempty) in Hthrown.
    injection Hthrown as <-. eauto.
Qed.

(** X4.  [request] stops at the first attempt that does not end in a
    retryable failure (a 2xx response, a 401, an unknown transport error)
    or at the last attempt of its budget: when the first [j] attempts are
    retryable failures and attempt [j] is decisive, the call ends as that
    attempt does, after [j + 1] transport calls and [j] sleeps. *)
Theorem request_stops_at_decisive_attempt (j : nat) (w : World) :
  (j < Z.to_nat budget)%nat ->
  (forall i, (i < j)%nat -> retryable (result_at w i) = true) ->
  retryable (result_at w j) = false \/ S j = Z.to_nat budget ->
  fst (run w) = outcome (result_at w j)
  /\ fetch_requests (trace (snd (run w)))
     = fetch_requests (trace w) ++ replicate (S j) req
  /\ sleeps (trace (snd (run w)))
     = sleeps (trace w) ++ backoff_delays Math_random c 0 (randomCalls w) j.
Proof.
  intros Hj Hbefore Hstop.
  destruct (request_shape w ltac:(lia))
    as (j' & Hj' & Hbefore' & Hafter' & Hout & _ & _ & Ht & Hs).
  assert (Heq : j' = j).
  { destruct (Nat.lt_trichotomy j' j) as [Hlt | [Heq | Hgt]]; [| exact Heq |].
    - specialize (Hbefore j' Hlt). rewrite Hafter' in Hbefore by lia. discriminate.
    - specialize (Hbefore' j Hgt). destruct Hstop as [Hno | Hlast]; [| lia].
      rewrite Hno in Hbefore'. discriminate. }
  subst j'. repeat split; assumption.
Qed.

(** X5.  [request] returns a value only from a response that is 2xx or
    that it treats as empty (status 204, or content-length [0] whatever
    the status): the value is [undefined] for an empty response and the
    payload otherwise.  A rejected transport call never yields a value. *)
Theorem request_returns_only_on_ok_or_empty (w : World) (v : JsValue) :
  fst (run w) = Normal v ->
  exists (j : nat) (resp : Response),
    result_at w j = Resolved resp
    /\ (is_empty resp = true \/ ok resp = true)
    /\ v = (if is_empty resp then JUndefined else payload resp)
    /\ fetchCalls (snd (run w)) = (fetchCalls w + S j)%nat.
Proof.
  intros Hret.
  destruct (Z.lt_ge_cases 0 budget) as [Hpos | Hempty].
  - destruct (request_shape w Hpos) as (j & _ & _ & _ & Hout & Hf & _).
    rewrite Hout in Hret. unfold outcome_of in Hret.
    destruct (failure_of _ _ (result_at w j)) as [e |] eqn:Hfail; [discriminate |].
    injection Hret as <-.
    destruct (result_at w j) as [resp | t] eqn:Hres.
    + exists j, resp. split; [exact Hres |]. simpl in Hfail |- *.
      destruct (is_empty resp).
      * repeat split; [left; reflexivity | exact Hf].
      * destruct (ok resp); [| discriminate].
        repeat split; [right; reflexivity | exact Hf].
    + simpl in Hfail. destruct t as [e | name msg | x]; discriminate.
  - rewrite (request_empty_budget _ _ _ _ _ _ w Hempty) in Hret. discriminate.
Qed.

End RequestRuns.

(** ** Every run of uploadFiles *)

Section UploadRuns.

Variable fetch_impl : nat -> FetchRequest -> FetchResult.
Variable Math_random : nat -> Q.
Variables (c : HttpClient) (endpoint : string).
Variables (files : list Blob) (fieldName : string).

Local Abbreviation upload := (uploadFiles fetch_impl Math_random c endpoint files fieldName).
Local Abbreviation upload_budget := (maxRetries (retryConfig c) + 1).
Local Abbreviation upload_req w i := (upload_init c endpoint (length (forms w) + i)%nat).
Local Abbreviation upload_result w i :=
  (fetch_impl (fetchCalls w + i)%nat (upload_req w i)).
Local Abbreviation retryable :=
  (retryable_failure "Upload failed with status " "Upload timeout").
Local Abbreviation outcome :=
  (outcome_of "Upload failed with status " "Upload timeout").

Lemma upload_shape (w : World) :
  0 < upload_budget ->
  exists j : nat,
    (j < Z.to_nat upload_budget)%nat
    /\ (forall i, (i < j)%nat -> retryable (upload_result w i) = true)
    /\ ((S j < Z.to_nat upload_budget)%nat -> retryable (upload_result w j) = false)
    /\ fst (upload w) = outcome (upload_result w j)
    /\ fetch_requests (trace (snd (upload w)))
       = fetch_requests (trace w) ++ map (fun i => upload_req w i) (seq 0 (S j))
    /\ sleeps (trace (snd (upload w)))
       = sleeps (trace w) ++ backoff_delays Math_random c 0 (randomCalls w) j
    /\ forms (snd (upload w))
       = forms w ++ replicate (S j) (form_entries fieldName files).
Proof.
  intros Hpos.
  destruct (attempts_shape fetch_impl Math_random c
              "Upload failed with status " "Upload timeout"
              "Upload failed after retries" upload_budget
              (upload_attempt fetch_impl Math_random c endpoint files fieldName
                              upload_budget)
              (fun i => upload_req w i) (upload_prep fieldName files)
              (fun (k : nat) (w' : World) =>
                 forms w' = forms w ++ replicate k (form_entries fieldName files))
              (upload_body_spec fetch_impl Math_random c endpoint files fieldName w)
              ltac:(reflexivity) ltac:(reflexivity)
              (upload_prep_fetch_requests files fieldName)
              (upload_prep_sleeps files fieldName)
              (upload_Inv_step files fieldName w)
              (Z.to_nat upload_budget) 0%nat 0 None w
              (upload_Inv_start files fieldName w) ltac:(lia) ltac:(lia))
    as (j & Hj & Hbefore & Hafter & Hout & _ & _ & Ht & Hs & HI).
  exists j. repeat split; assumption.
Qed.

Lemma upload_empty_budget (w : World) :
  upload_budget <= 0 ->
  upload w
  = (Abrupt (ThrownChaindoc (ChaindocError_of_message "Upload failed after retries")),
     w).
Proof.
  intros Hb. unfold uploadFiles.
  replace (Z.to_nat upload_budget) with 0%nat by lia. reflexivity.
Qed.

(** X6.  Whatever the transport does, [uploadFiles] makes at most
    [maxRetries + 1] transport calls (at least one when [maxRetries] is
    not negative), each a POST to the base address followed by the
    endpoint, guarded by twice the client timeout and carrying the form
    built in its attempt; it sleeps once between successive calls; and
    whatever it throws is a [ChaindocError]. *)
Theorem upload_attempts_bounded (w : World) :
  exists n : nat,
    fetch_requests (trace (snd (upload w)))
    = fetch_requests (trace w)
      ++ map (fun i =>
                {| req_url := baseUrl c +:+ endpoint;
                   req_method := POST;
                   req_headers := {[ "Authorization" := "Bearer " +:+ secretKey c ]};
                   req_body := BodyForm (length (forms w) + i);
                   req_abortAfter := (timeout c * 2)%Q |})
             (seq 0 n)
    /\ (n <= Z.to_nat upload_budget)%nat
    /\ (0 <= maxRetries (retryConfig c) -> (1 <= n)%nat)
    /\ length (sleeps (trace (snd (upload w))))
       = (length (sleeps (trace w)) + (n - 1))%nat
    /\ (forall t, fst (upload w) = Abrupt t -> exists e, t = ThrownChaindoc e).
Proof.
  destruct (Z.lt_ge_cases 0 upload_budget) as [Hpos | Hempty].
  - destruct (upload_shape w Hpos) as (j & Hj & _ & _ & Hout & Ht & Hs & _).
    exists (S j). split; [exact Ht |]. split; [lia |]. split; [lia |]. split.
    + rewrite Hs, length_app. unfold backoff_delays.
      rewrite length_map, length_seq. lia.
    + intros t Hthrown. rewrite Hout in Hthrown. unfold outcome_of in Hthrown.
      destruct (failure_of _ _ (upload_result w j)) as [e |]; [| discriminate].
      injection Hthrown as <-. eauto.
  - exists 0%nat. rewrite (upload_empty_budget w Hempty). simpl.
    rewrite app_nil_r. split; [reflexivity |]. split; [lia |]. split; [lia |].
    split; [lia |]. intros t [= <-]. eauto.
Qed.

(** X7.  [uploadFiles] stops at the first attempt that does not end in a
    retryable failure, or at the last attempt of its budget: the call
    ends as that attempt does, after [j + 1] transport calls, [j] sleeps
    and [j + 1] forms built. *)
Theorem upload_stops_at_decisive_attempt (j : nat) (w : World) :
  (j < Z.to_nat upload_budget)%nat ->
  (forall i, (i < j)%nat -> retryable (upload_result w i) = true) ->
  retryable (upload_result w j) = false \/ S j = Z.to_nat upload_budget ->
  fst (upload w) = outcome (upload_result w j)
  /\ length (fetch_requests (trace (snd (upload w))))
     = (length (fetch_requests (trace w)) + S j)%nat
  /\ sleeps (trace (snd (upload w)))
     = sleeps (trace w) ++ backoff_delays Math_random c 0 (randomCalls w) j
  /\ forms (snd (upload w))
     = forms w ++ replicate (S j) (form_entries fieldName files).
Proof.
  intros Hj Hbefore Hstop.
  destruct (upload_shape w ltac:(lia))
    as (j' & Hj' & Hbefore' & Hafter' & Hout & Ht & Hs & Hforms).
  assert (Heq : j' = j).
  { destruct (Nat.lt_trichotomy j' j) as [Hlt | [Heq | Hgt]]; [| exact Heq |].
    - specialize (Hbefore j' Hlt). rewrite Hafter' in Hbefore by lia. discriminate.
    - specialize (Hbefore' j Hgt). destruct Hstop as [Hno | Hlast]; [| lia].
      rewrite Hno in Hbefore'. discriminate. }
  subst j'. split; [exact Hout |]. split; [| split; assumption].
  rewrite Ht, length_app, length_map, length_seq. reflexivity.
Qed.

(** X8.  The errors of [uploadFiles] are worded for uploads: a non-2xx
    response whose content-length is not [0] and whose payload has no
    string [message] gives [Upload failed with status N], and an aborted
    transport call gives [Upload timeout], retryable and without status
    code. *)
Theorem upload_error_messages (maxAttempts attempt : Z) (w : World) :
  (forall resp,
     fetch_impl (fetchCalls w) (upload_init c endpoint (length (forms w)))
     = Resolved resp ->
     ok resp = false ->
     resp_headers resp !! "content-length" <> Some "0" ->
     message_field (payload resp) = None ->
     let e := mkChaindocError ("Upload failed with status " +:+ pretty (status resp))
                (Some (status resp)) (payload resp)
                ((500 <=? status resp) || (status resp =? 429)) in
     fst (upload_attempt fetch_impl Math_random c endpoint files fieldName
                         maxAttempts attempt w)
     = if isRetryable e && (attempt <? maxAttempts - 1)
       then Normal (Continue e)
       else Abrupt (ThrownChaindoc e))
  /\ (forall msg,
        fetch_impl (fetchCalls w) (upload_init c endpoint (length (forms w)))
        = Rejected (ThrownError "AbortError" msg) ->
        let e := mkChaindocError "Upload timeout" None JUndefined true in
        fst (upload_attempt fetch_impl Math_random c endpoint files fieldName
                            maxAttempts attempt w)
        = if attempt <? maxAttempts - 1
          then Normal (Continue e)
          else Abrupt (ThrownChaindoc e)).
Proof.
  split.
  - intros resp Hfetch Hok Hlen Hmsg e.
    rewrite upload_attempt_spec, guarded_fetch_spec. simpl fetchCalls.
    rewrite Hfetch. unfold attempt_result, failure_of.
    assert (Hempty : is_empty resp = false).
    { unfold is_empty. rewrite (not_ok_not_204 resp Hok). simpl.
      apply bool_decide_eq_false. exact Hlen. }
    rewrite Hempty, Hok, errorMessage_spec, Hmsg, isRetryableError_status.
    fold e. destruct (isRetryable e && (attempt <? maxAttempts - 1)); reflexivity.
  - intros msg Hfetch e.
    rewrite upload_attempt_spec, guarded_fetch_spec. simpl fetchCalls.
    rewrite Hfetch. unfold attempt_result. simpl failure_of.
    rewrite isRetryableError_transport, orb_true_r. fold e. simpl.
    destruct (attempt <? maxAttempts - 1); reflexivity.
Qed.

End UploadRuns.

(** ** Growth and cap of the backoff *)

Lemma jittered_proper (d d' u : Q) : (d == d')%Q -> (jittered d u == jittered d' u)%Q.
Proof.
  intros E. unfold jittered, double_add, double_mul, double_sub.
  rewrite E. reflexivity.
Qed.

Lemma Math_round_proper (x y : Q) : (x == y)%Q -> Math_round x = Math_round y.
Proof. intros E. unfold Math_round. apply Qfloor_comp. rewrite E. reflexivity. Qed.

(** X9.  The backoff saturates: from the attempt at which
    [baseDelayMs * Math.pow(2, attempt)], computed in doubles, reaches
    [maxDelayMs] on, the delay no longer depends on the attempt index; it
    is [maxDelayMs] with its jitter, rounded.  (Attempt indices are below
    1024 and [maxDelayMs] is at most [2^1023], so that no double involved
    is infinite.) *)
Theorem backoff_saturates_at_cap (c : HttpClient) (a a' : Z) (u : Q) :
  (0 <= baseDelayMs (retryConfig c))%Q ->
  (maxDelayMs (retryConfig c) <= pow2 1023)%Q ->
  a <= a' -> a' < 1024 ->
  (maxDelayMs (retryConfig c)
   <= double_mul (baseDelayMs (retryConfig c)) (Math_pow2 a))%Q ->
  getRetryDelay c a' u = getRetryDelay c a u
  /\ getRetryDelay c a u
     = Math_round
         (double_add (maxDelayMs (retryConfig c))
            (double_mul (double_mul (maxDelayMs (retryConfig c)) 0.25)
                        (double_sub (double_mul u 2) 1))).
Proof.
  intros Hb _ Ha _ Hover.
  assert (Hgrow : (double_mul (baseDelayMs (retryConfig c)) (Math_pow2 a)
                   <= double_mul (baseDelayMs (retryConfig c)) (Math_pow2 a'))%Q).
  { unfold double_mul. apply binary64_le.
    pose proof (Math_pow2_le a a' Ha). pose proof (Math_pow2_nonneg a). nra. }
  assert (Hcap : (clampedDelay c a == maxDelayMs (retryConfig c))%Q)
    by (unfold clampedDelay; apply Q.min_r; exact Hover).
  assert (Hcap' : (clampedDelay c a' == maxDelayMs (retryConfig c))%Q)
    by (unfold clampedDelay; apply Q.min_r; lra).
  rewrite !getRetryDelay_unfold. split; apply Math_round_proper.
  - rewrite (jittered_proper _ _ u Hcap'), (jittered_proper _ _ u Hcap). reflexivity.
  - apply (jittered_proper _ _ u Hcap).
Qed.

(** ** Construction: base address and headers *)

Lemma strip_trailing_slash_drops (b : string) : strip_trailing_slash (b +:+ "/") = b.
Proof.
  induction b as [| ch b IH]; [reflexivity |].
  change (String ch b +:+ "/") with (String ch (b +:+ "/")).
  destruct b as [| ch' b']; simpl in *; [reflexivity |].
  rewrite IH. reflexivity.
Qed.

Lemma strip_trailing_slash_at_most_one (s : string) :
  s = strip_trailing_slash s \/ s = strip_trailing_slash s +:+ "/".
Proof.
  induction s as [| ch s IH]; [left; reflexivity |].
  destruct s as [| ch' s'].
  - simpl. destruct (Ascii.eqb_spec ch "/") as [-> |]; [right | left]; reflexivity.
  - change (strip_trailing_slash (String ch (String ch' s')))
      with (String ch (strip_trailing_slash (String ch' s'))).
    destruct IH as [IH | IH]; [left | right].
    + rewrite <- IH. reflexivity.
    + change (String ch (strip_trailing_slash (String ch' s')) +:+ "/")
        with (String ch (strip_trailing_slash (String ch' s') +:+ "/")).
      rewrite <- IH. reflexivity.
Qed.

Lemma constructor_fields (config : ChaindocConfig) (c : HttpClient) :
  constructor config = inr c ->
  cfg_secretKey config = Some (secretKey c)
  /\ defaultHeaders c
     = spread (<["Content-Type" := "application/json"]>
                 (<["Authorization" := "Bearer " +:+ secretKey c]> ∅))
              (nullish (cfg_headers config) ∅)
  /\ timeout c = nullish (cfg_timeout config) DEFAULT_TIMEOUT.
Proof.
  unfold constructor. destruct (cfg_secretKey config) as [key |]; [| discriminate].
  destruct (key =? "")%string; [discriminate |].
  destruct (negb (startsWith key "sk_")); [discriminate |].
  intros [= <-]. repeat split.
Qed.

(** X10.  The base address of a client is the configured one (the
    production address when none is configured) without its trailing
    slash, of which at most one is removed; every request URL is that
    address followed by the endpoint, so that a configured address with
    or without a final slash gives the same URLs. *)
Theorem constructor_normalises_base_address (config : ChaindocConfig)
    (c : HttpClient) :
  constructor config = inr c ->
  let raw := nullish (cfg_baseUrl config) DEFAULT_BASE_URL in
  (raw = baseUrl c \/ raw = baseUrl c +:+ "/")
  /\ (forall b, raw = b +:+ "/" -> baseUrl c = b)
  /\ (cfg_baseUrl config = None -> baseUrl c = "https://api.chaindoc.io")
  /\ (forall JSON_stringify endpoint options,
        req_url (request_init JSON_stringify c endpoint options)
        = baseUrl c +:+ endpoint)
  /\ (forall endpoint formData,
        req_url (upload_init c endpoint formData) = baseUrl c +:+ endpoint).
Proof.
  intros Hc raw. pose proof (constructor_base_address config c Hc) as Hbase.
  fold raw in Hbase.
  split; [rewrite Hbase; apply strip_trailing_slash_at_most_one |].
  split; [intros b Hb; rewrite Hbase, Hb; apply strip_trailing_slash_drops |].
  split; [| split; reflexivity].
  intros Hnone. rewrite Hbase. unfold raw. rewrite Hnone. reflexivity.
Qed.

(** X11.  The headers of a request are layered: a header of the call
    overrides the same header of the configuration, which overrides the
    two headers the client sets itself (Content-Type and Authorization,
    the latter being Bearer followed by the secret key); header names are
    compared exactly. *)
Theorem request_header_precedence (config : ChaindocConfig) (c : HttpClient)
    (JSON_stringify : JsValue -> string) (endpoint : string)
    (options : RequestOptions) (name : string) :
  constructor config = inr c ->
  req_headers (request_init JSON_stringify c endpoint options) !! name
  = match opt_headers options ≫= (fun h => h !! name) with
    | Some v => Some v
    | None =>
      match cfg_headers config ≫= (fun h => h !! name) with
      | Some v => Some v
      | None => builtin_header (secretKey c) name
      end
    end.
Proof.
  intros Hc. destruct (constructor_fields config c Hc) as (_ & Hh & _).
  simpl. rewrite Hh. unfold spread. rewrite !lookup_union.
  assert (Hbuiltin :
    (<["Content-Type" := "application/json"]>
       (<["Authorization" := "Bearer " +:+ secretKey c]> (∅ : gmap string string)))
    !! name = builtin_header (secretKey c) name).
  { unfold builtin_header.
    destruct (String.eqb_spec name "Content-Type") as [-> | Hct].
    - apply lookup_insert_eq.
    - rewrite lookup_insert_ne by congruence.
      destruct (String.eqb_spec name "Authorization") as [-> | Hau].
      + apply lookup_insert_eq.
      + rewrite lookup_insert_ne by congruence. apply lookup_empty. }
  rewrite Hbuiltin.
  destruct (opt_headers options) as [oh |], (cfg_headers config) as [ch |]; simpl;
    rewrite ?lookup_empty;
    repeat match goal with
           | |- context [?m !! name] =>
             is_var m; destruct (m !! name)
           end;
    simpl; destruct (builtin_header (secretKey c) name); reflexivity.
Qed.

(** ** The convenience methods and the modules *)

Lemma spread_empty (m : gmap string string) : spread m ∅ = m.
Proof. unfold spread. apply (left_id_L ∅ (∪)). Qed.

Section Calls.

Variable fetch_impl : nat -> FetchRequest -> FetchResult.
Variable Math_random : nat -> Q.
Variable JSON_stringify : JsValue -> string.
Variable Number_toString : Q -> string.

Lemma request_issues_only c endpoint options w :
  issues_only w
    (snd (request fetch_impl Math_random JSON_stringify c endpoint options w))
    (request_init JSON_stringify c endpoint options)
    (request_budget c options).
Proof.
  destruct (request_trace fetch_impl Math_random JSON_stringify c endpoint options w)
    as (n & Hn & Hpos & _ & Ht).
  exists n. split; [exact Hn |]. split; [| exact Ht].
  intros Hb. specialize (Hpos Hb). lia.
Qed.

Lemma client_get_issues c path w :
  issues_only w (snd (client_get fetch_impl Math_random JSON_stringify c path w))
    (json_call c GET path BodyAbsent) (maxRetries (retryConfig c) + 1).
Proof.
  pose proof (request_issues_only c path (with_method no_options GET) w) as H.
  unfold json_call. rewrite <- (spread_empty (defaultHeaders c)). exact H.
Qed.

Lemma client_post_issues c path params w :
  issues_only w
    (snd (client_post fetch_impl Math_random JSON_stringify c path (JObject params) w))
    (json_call c POST path (BodyText (JSON_stringify (JObject params))))
    (maxRetries (retryConfig c) + 1).
Proof.
  pose proof (request_issues_only c path
                (with_method_body no_options POST (JObject params)) w) as H.
  unfold json_call. rewrite <- (spread_empty (defaultHeaders c)). exact H.
Qed.

Lemma client_put_issues c path params w :
  issues_only w
    (snd (client_put fetch_impl Math_random JSON_stringify c path (JObject params) w))
    (json_call c PUT path (BodyText (JSON_stringify (JObject params))))
    (maxRetries (retryConfig c) + 1).
Proof.
  pose proof (request_issues_only c path
                (with_method_body no_options PUT (JObject params)) w) as H.
  unfold json_call. rewrite <- (spread_empty (defaultHeaders c)). exact H.
Qed.

(** X12.  Each convenience method issues requests of its own method only,
    whatever [method] its options carry: [get] and [delete] keep the body
    of the options, [post] and [put] send their body argument when it is
    truthy and no body otherwise; headers, timeout and retry budget are
    those of the options. *)
Theorem convenience_methods_force_method (c : HttpClient) (endpoint : string)
    (body : JsValue) (options : RequestOptions) (w : World) :
  let sent (m : Method) (b : JsValue) :=
    {| req_url := baseUrl c +:+ endpoint;
       req_method := m;
       req_headers := spread (defaultHeaders c) (nullish (opt_headers options) ∅);
       req_body := if truthy b then BodyText (JSON_stringify b) else BodyAbsent;
       req_abortAfter := nullish (opt_timeout options) (timeout c) |} in
  issues_only w
    (snd (get fetch_impl Math_random JSON_stringify c endpoint options w))
    (sent GET (opt_body options)) (request_budget c options)
  /\ issues_only w
       (snd (post fetch_impl Math_random JSON_stringify c endpoint body options w))
       (sent POST body) (request_budget c options)
  /\ issues_only w
       (snd (put fetch_impl Math_random JSON_stringify c endpoint body options w))
       (sent PUT body) (request_budget c options)
  /\ issues_only w
       (snd (delete fetch_impl Math_random JSON_stringify c endpoint options w))
       (sent DELETE (opt_body options)) (request_budget c options).
Proof.
  intros sent. repeat split.
  - exact (request_issues_only c endpoint (with_method options GET) w).
  - exact (request_issues_only c endpoint (with_method_body options POST body) w).
  - exact (request_issues_only c endpoint (with_method_body options PUT body) w).
  - exact (request_issues_only c endpoint (with_method options DELETE) w).
Qed.

(** X13.  The methods of the Documents module are bound to their
    endpoints: [create] and [verify] POST, [update] and [updateRights] PUT
    to the path of the document, always with the serialized parameters as
    body; [getVerificationStatus] GETs without a body.  All use the
    default headers and timeout and the full retry budget. *)
Theorem documents_endpoints (c : HttpClient) (documentId versionId : string)
    (params : list (string * JsValue)) (w : World) :
  let limit := maxRetries (retryConfig c) + 1 in
  let body := BodyText (JSON_stringify (JObject params)) in
  issues_only w
    (snd (Documents_create fetch_impl Math_random JSON_stringify c params w))
    (json_call c POST "/api/v1/documents" body) limit
  /\ issues_only w
       (snd (Documents_update fetch_impl Math_random JSON_stringify c documentId
                              params w))
       (json_call c PUT ("/api/v1/documents/" +:+ documentId) body) limit
  /\ issues_only w
       (snd (Documents_updateRights fetch_impl Math_random JSON_stringify c
                                    documentId params w))
       (json_call c PUT ("/api/v1/documents/" +:+ documentId +:+ "/rights") body)
       limit
  /\ issues_only w
       (snd (Documents_verify fetch_impl Math_random JSON_stringify c params w))
       (json_call c POST "/api/v1/documents/verify" body) limit
  /\ issues_only w
       (snd (Documents_getVerificationStatus fetch_impl Math_random JSON_stringify
                                             c versionId w))
       (json_call c GET ("/api/v1/documents/versions/" +:+ versionId
                         +:+ "/verification") BodyAbsent)
       limit.
Proof.
  intros limit body. repeat split.
  - apply client_post_issues.
  - apply client_put_issues.
  - apply client_put_issues.
  - apply client_post_issues.
  - apply client_get_issues.
Qed.

Lemma with_query_empty (path : string) : with_query path EmptyString = path.
Proof.
  unfold with_query. simpl. induction path as [| ch path IH]; [reflexivity |].
  change (String ch path +:+ EmptyString) with (String ch (path +:+ EmptyString)).
  rewrite IH. reflexivity.
Qed.

(** X14.  [getMyRequests] and [getSignatures] put in the query string the
    page number and the page size that are given and not zero, in that
    order, and no question mark when neither is: a page number of 0 is
    never sent.  The request is a GET without body. *)
Theorem signatures_pagination_query (c : HttpClient)
    (pagination : option PaginationParams) (w : World) :
  let number := pagination ≫= pageNumber in
  let size := pagination ≫= pageSize in
  let query := pagination_query Number_toString pagination in
  query
  = match number, size with
    | Some n, Some s =>
      if truthy_number number then
        if truthy_number size
        then "pageNumber=" +:+ urlencode (Number_toString n)
             +:+ "&pageSize=" +:+ urlencode (Number_toString s)
        else "pageNumber=" +:+ urlencode (Number_toString n)
      else if truthy_number size
           then "pageSize=" +:+ urlencode (Number_toString s)
           else EmptyString
    | Some n, None =>
      if truthy_number number
      then "pageNumber=" +:+ urlencode (Number_toString n)
      else EmptyString
    | None, Some s =>
      if truthy_number size
      then "pageSize=" +:+ urlencode (Number_toString s)
      else EmptyString
    | None, None => EmptyString
    end
  /\ (truthy_number number = false -> truthy_number size = false ->
      with_query "/api/v1/signatures/requests" query = "/api/v1/signatures/requests"
      /\ with_query "/api/v1/signatures" query = "/api/v1/signatures")
  /\ (truthy_number number = true \/ truthy_number size = true ->
      with_query "/api/v1/signatures/requests" query
      = "/api/v1/signatures/requests?" +:+ query
      /\ with_query "/api/v1/signatures" query = "/api/v1/signatures?" +:+ query)
  /\ issues_only w
       (snd (Signatures_getMyRequests fetch_impl Math_random JSON_stringify
                                      Number_toString c pagination w))
       (json_call c GET (with_query "/api/v1/signatures/requests" query) BodyAbsent)
       (maxRetries (retryConfig c) + 1)
  /\ issues_only w
       (snd (Signatures_getSignatures fetch_impl Math_random JSON_stringify
                                      Number_toString c pagination w))
       (json_call c GET (with_query "/api/v1/signatures" query) BodyAbsent)
       (maxRetries (retryConfig c) + 1).
Proof.
  intros number size query.
  assert (Hquery : query
    = match number, size with
      | Some n, Some s =>
        if truthy_number number then
          if truthy_number size
          then "pageNumber=" +:+ urlencode (Number_toString n)
               +:+ "&pageSize=" +:+ urlencode (Number_toString s)
          else "pageNumber=" +:+ urlencode (Number_toString n)
        else if truthy_number size
             then "pageSize=" +:+ urlencode (Number_toString s)
             else EmptyString
      | Some n, None =>
        if truthy_number number
        then "pageNumber=" +:+ urlencode (Number_toString n)
        else EmptyString
      | None, Some s =>
        if truthy_number size
        then "pageSize=" +:+ urlencode (Number_toString s)
        else EmptyString
      | None, None => EmptyString
      end).
  { unfold query, pagination_query. fold number size.
    destruct number as [n |], size as [s |];
      try destruct (truthy_number (Some n));
      try destruct (truthy_number (Some s)); reflexivity. }
  split; [exact Hquery |]. split; [| split; [| split]].
  - intros Hn Hs. rewrite Hquery.
    destruct number as [n |], size as [s |]; rewrite ?Hn, ?Hs;
      split; reflexivity.
  - intros Hsome. rewrite Hquery.
    destruct number as [n |], size as [s |];
      try destruct (truthy_number (Some n));
      try destruct (truthy_number (Some s));
      try (split; reflexivity);
      destruct Hsome; discriminate.
  - apply client_get_issues.
  - apply client_get_issues.
Qed.

(** X15.  [createRequest] sends a copy of its parameters in which the
    deadline is the ISO string of the date, the other properties and
    their order being kept; with an invalid date it throws the
    [RangeError] of [toISOString], which is not a [ChaindocError], before
    any transport call. *)
Theorem createRequest_serialises_deadline (c : HttpClient)
    (params : CreateSignatureRequestParams) (w : World) :
  (csr_deadline params = InvalidDate ->
   Signatures_createRequest fetch_impl Math_random JSON_stringify c params w
   = (Abrupt (ThrownError "RangeError" "Invalid time value"), w))
  /\ (forall iso,
        csr_deadline params = ValidDate iso ->
        issues_only w
          (snd (Signatures_createRequest fetch_impl Math_random JSON_stringify
                                         c params w))
          (json_call c POST "/api/v1/signatures/requests"
             (BodyText (JSON_stringify
                (JObject (csr_before params ++ [("deadline", JString iso)]
                          ++ csr_after params)))))
          (maxRetries (retryConfig c) + 1)).
Proof.
  split.
  - intros Hd. unfold Signatures_createRequest, bind. rewrite Hd. reflexivity.
  - intros iso Hd. unfold Signatures_createRequest, bind. rewrite Hd. simpl.
    apply client_post_issues.
Qed.

(** X16.  The remaining module methods and the two calls of the facade
    are bound to their endpoints: [getRequestStatus], [getApiKeyInfo] and
    [healthCheck] GET without a body; [sign], [createSession] and [share]
    POST their serialized parameters. *)
Theorem service_endpoints (ch : Chaindoc) (requestId : string)
    (params : list (string * JsValue)) (w : World) :
  let c := client ch in
  let limit := maxRetries (retryConfig c) + 1 in
  let body := BodyText (JSON_stringify (JObject params)) in
  issues_only w
    (snd (Signatures_getRequestStatus fetch_impl Math_random JSON_stringify c
                                      requestId w))
    (json_call c GET ("/api/v1/signatures/requests/" +:+ requestId +:+ "/status")
               BodyAbsent) limit
  /\ issues_only w
       (snd (Signatures_sign fetch_impl Math_random JSON_stringify c params w))
       (json_call c POST "/api/v1/signatures/sign" body) limit
  /\ issues_only w
       (snd (Embedded_createSession fetch_impl Math_random JSON_stringify c params w))
       (json_call c POST "/api/v1/embedded/sessions" body) limit
  /\ issues_only w
       (snd (Kyc_share fetch_impl Math_random JSON_stringify c params w))
       (json_call c POST "/api/v1/kyc/share" body) limit
  /\ issues_only w
       (snd (getApiKeyInfo fetch_impl Math_random JSON_stringify ch w))
       (json_call c GET "/api/v1/me" BodyAbsent) limit
  /\ issues_only w
       (snd (healthCheck fetch_impl Math_random JSON_stringify ch w))
       (json_call c GET "/api/v1/health" BodyAbsent) limit.
Proof.
  intros c limit body. repeat split.
  - apply client_get_issues.
  - apply client_post_issues.
  - apply client_post_issues.
  - apply client_post_issues.
  - apply client_get_issues.
  - apply client_get_issues.
Qed.

End Calls.

(** X19.  [Media.upload] posts the files to the media endpoint, each
    under the field name [media], with a form of its own per attempt; it
    makes at most [maxRetries + 1] attempts, and at least one when
    [maxRetries] is not negative. *)
Theorem media_upload_trace fetch_impl Math_random (c : HttpClient)
    (files : list Blob) (w : World) :
  exists n : nat,
    (n <= Z.to_nat (maxRetries (retryConfig c) + 1))%nat
    /\ (0 <= maxRetries (retryConfig c) -> (1 <= n)%nat)
    /\ forms (snd (Media_upload fetch_impl Math_random c files w))
       = forms w ++ replicate n (map (fun file => ("media", file)) files)
    /\ fetch_requests (trace (snd (Media_upload fetch_impl Math_random c files w)))
       = fetch_requests (trace w)
         ++ map (fun i =>
                   {| req_url := baseUrl c +:+ "/api/v1/media/upload";
                      req_method := POST;
                      req_headers := {[ "Authorization" := "Bearer " +:+ secretKey c ]};
                      req_body := BodyForm (length (forms w) + i);
                      req_abortAfter := (timeout c * 2)%Q |})
                (seq 0 n).
Proof.
  unfold Media_upload.
  destruct (Z.lt_ge_cases 0 (maxRetries (retryConfig c) + 1)) as [Hpos | Hempty].
  - destruct (upload_shape fetch_impl Math_random c "/api/v1/media/upload" files
                           "media" w Hpos)
      as (j & Hj & _ & _ & _ & Ht & _ & Hforms).
    exists (S j). split; [lia |]. split; [lia |]. split; [exact Hforms | exact Ht].
  - exists 0%nat.
    rewrite (upload_empty_budget fetch_impl Math_random c "/api/v1/media/upload"
               files "media" w Hempty).
    simpl. rewrite !app_nil_r. split; [lia |]. split; [lia |]. split; reflexivity.
Qed.

(** ** Classification of transport failures *)

Lemma includes_unfold (s sub : string) :
  includes s sub
  = String.prefix sub s
    || match s with
       | EmptyString => false
       | String _ s' => includes s' sub
       end.
Proof. destruct s; reflexivity. Qed.

Lemma prefix_append (sub suf : string) : String.prefix sub (sub +:+ suf) = true.
Proof.
  induction sub as [| ch sub IH]; [destruct suf; reflexivity |].
  change (String ch sub +:+ suf) with (String ch (sub +:+ suf)). simpl.
  destruct (ascii_dec ch ch) as [_ | Hne]; [exact IH | contradiction].
Qed.

Lemma prefix_inv (sub : string) : forall s,
  String.prefix sub s = true -> exists suf, s = sub +:+ suf.
Proof.
  induction sub as [| ch sub IH]; intros s Hp.
  - exists s. reflexivity.
  - destruct s as [| ch' s']; [discriminate |]. simpl in Hp.
    destruct (ascii_dec ch ch') as [<- | _]; [| discriminate].
    destruct (IH s' Hp) as [suf ->]. exists suf. reflexivity.
Qed.

Lemma includes_iff (s sub : string) :
  includes s sub = true <-> exists pre suf, s = pre +:+ sub +:+ suf.
Proof.
  split.
  - induction s as [| ch s IH]; rewrite includes_unfold; intros H;
      apply orb_true_iff in H as [Hp | Hrest].
    + destruct (prefix_inv sub _ Hp) as [suf Hs]. exists EmptyString, suf. exact Hs.
    + discriminate.
    + destruct (prefix_inv sub _ Hp) as [suf Hs]. exists EmptyString, suf. exact Hs.
    + destruct (IH Hrest) as (pre & suf & ->). exists (String ch pre), suf. reflexivity.
  - intros (pre & suf & ->). induction pre as [| ch pre IH].
    + change (EmptyString +:+ sub +:+ suf) with (sub +:+ suf).
      rewrite includes_unfold, prefix_append. reflexivity.
    + change (String ch pre +:+ sub +:+ suf) with (String ch (pre +:+ sub +:+ suf)).
      rewrite includes_unfold, IH. apply orb_true_r.
Qed.

(** X17.  Without a status, a thrown [Error] is retryable exactly when it
    is named AbortError or when its message contains, anywhere and in
    upper case, one of ECONNRESET, ECONNREFUSED, ETIMEDOUT, ENOTFOUND,
    EAI_AGAIN; a thrown value that is not an [Error] never is; and a
    status of 500 or more, or 429, makes any failure retryable. *)
Theorem isRetryableError_characterised (name msg : string) :
  (isRetryableError (Some (ThrownError name msg)) None = true <->
   name = "AbortError"
   \/ exists code pre suf,
        In code ["ECONNRESET"; "ECONNREFUSED"; "ETIMEDOUT"; "ENOTFOUND"; "EAI_AGAIN"]
        /\ msg = pre +:+ code +:+ suf)
  /\ (forall v, isRetryableError (Some (ThrownOther v)) None = false)
  /\ isRetryableError None None = false
  /\ (forall error st,
        500 <= st \/ st = 429 -> isRetryableError error (Some st) = true).
Proof.
  split; [| split; [| split]].
  - rewrite isRetryableError_transport, orb_true_iff, existsb_exists. split.
    + intros [(code & Hin & Hinc) | Hname].
      * right. apply includes_iff in Hinc as (pre & suf & Hmsg).
        exists code, pre, suf. split; assumption.
      * left. apply String.eqb_eq. exact Hname.
    + intros [-> | (code & pre & suf & Hin & Hmsg)].
      * right. reflexivity.
      * left. exists code. split; [exact Hin |].
        apply includes_iff. exists pre, suf. exact Hmsg.
  - reflexivity.
  - reflexivity.
  - intros error st Hst. unfold isRetryableError.
    destruct Hst as [Hge | ->]; [| reflexivity].
    destruct (Z.eqb_spec st 0); [lia |].
    destruct (Z.leb_spec 500 st); [reflexivity | lia].
Qed.

(** X18.  With a negative [maxRetries] (and retry not disabled for the
    call) no attempt is made at all: [request] and [uploadFiles] throw a
    generic error, without status and not retryable, and leave the world
    as it was. *)
Theorem negative_maxRetries_makes_no_attempt
    (fetch_impl : nat -> FetchRequest -> FetchResult) (Math_random : nat -> Q)
    (JSON_stringify : JsValue -> string) (c : HttpClient) (endpoint : string)
    (options : RequestOptions) (files : list Blob) (fieldName : string)
    (w : World) :
  maxRetries (retryConfig c) < 0 ->
  nullish (opt_noRetry options) false = false ->
  request fetch_impl Math_random JSON_stringify c endpoint options w
  = (Abrupt (ThrownChaindoc
               (mkChaindocError "Request failed after retries" None JUndefined false)),
     w)
  /\ uploadFiles fetch_impl Math_random c endpoint files fieldName w
     = (Abrupt (ThrownChaindoc
                  (mkChaindocError "Upload failed after retries" None JUndefined
                                   false)),
        w).
Proof.
  intros Hneg Hretry. split.
  - apply request_empty_budget. unfold request_budget. rewrite Hretry. lia.
  - apply upload_empty_budget. lia.
Qed.

(** * Instances of the further properties *)

(** C6 at a transport that answers 503 with a JSON body, then 204 with a
    JSON body: the call returns [undefined] and the one decoding of the run
    is that of the 503. *)
Lemma success_without_payload_witness :
  fst (request fails_once_then_no_content no_jitter stub_stringify
               (demo_client 3) "/api/v1/documents/42" no_options empty_world)
  = Normal JUndefined
  /\ json_decodes (trace (snd
       (request fails_once_then_no_content no_jitter stub_stringify
                (demo_client 3) "/api/v1/documents/42" no_options empty_world)))
     = 1%nat.
Proof.
  assert (Hj : (1 < Z.to_nat (request_budget (demo_client 3) no_options))%nat)
    by (vm_compute; lia).
  assert (Hbefore : forall i, (i < 1)%nat ->
            retryable_failure "Request failed with status " "Request timeout"
              (fails_once_then_no_content (fetchCalls empty_world + i)%nat
                 (request_init stub_stringify (demo_client 3)
                               "/api/v1/documents/42" no_options)) = true).
  { intros i Hi. destruct i as [| i]; [reflexivity | lia]. }
  exact (proj1 (success_without_payload
                  fails_once_then_no_content no_jitter stub_stringify
                  (demo_client 3) "/api/v1/documents/42" no_options
                  1%nat no_content_with_body empty_world Hj Hbefore eq_refl eq_refl)
               (or_introl eq_refl)).
Defined.

(** X2 at a transport that fails twice, then answers: no sleep of the
    default policy is longer than 12500 ms. *)
Lemma request_backoff_schedule_witness :
  exists j : nat,
    (0 < 3 ->
     fetch_requests (trace (snd (request fails_twice no_jitter stub_stringify
                                   (demo_client 2) "/api/v1/me" no_options
                                   empty_world)))
     = replicate (S j)
         (request_init stub_stringify (demo_client 2) "/api/v1/me" no_options))
    /\ sleeps (trace (snd (request fails_twice no_jitter stub_stringify (demo_client 2)
                                   "/api/v1/me" no_options empty_world)))
       = map (fun i => getRetryDelay (demo_client 2) (Z.of_nat i) (no_jitter i)) (seq 0 j)
    /\ Forall (fun ms : Z => 0 <= ms <= 12500)
              (map (fun i => getRetryDelay (demo_client 2) (Z.of_nat i) (no_jitter i))
                   (seq 0 j)).
Proof.
  assert (H0 : (0 <= 1 # 2)%Q) by (vm_compute; discriminate).
  assert (H1 : (1 # 2 < 1)%Q) by reflexivity.
  assert (Hb : (0 <= 1000)%Q) by (vm_compute; discriminate).
  assert (Hm : (0 <= 10000)%Q) by (vm_compute; discriminate).
  assert (Hr : 2 <= 1024) by lia.
  assert (Hmr : (10000 <= pow2 1023)%Q) by (vm_compute; discriminate).
  assert (Hd : is_double 10000) by (vm_compute; reflexivity).
  exact (request_backoff_schedule fails_twice no_jitter stub_stringify
           (demo_client 2) "/api/v1/me" no_options empty_world
           (fun _ => conj H0 H1) Hr Hb Hm Hmr Hd).
Defined.

(** X3 at a transport that always aborts. *)
Lemma request_throws_only_ChaindocError_witness :
  exists e : ChaindocError,
    ThrownChaindoc (mkChaindocError "Request timeout" None JUndefined true)
    = ThrownChaindoc e.
Proof.
  exact (request_throws_only_ChaindocError (always aborted) no_jitter stub_stringify
           (demo_client 1) "/api/v1/me" no_options empty_world _ eq_refl).
Defined.

(** X4 at a transport that answers 500, 500, 200, with [maxRetries = 2]:
    the call returns the payload after three transport calls and the two
    backoffs of attempts 0 and 1. *)
Lemma request_stops_at_decisive_attempt_witness :
  fst (request fails_twice varying_jitter stub_stringify (demo_client 2)
               "/api/v1/me" no_options empty_world)
  = Normal (JObject [("success", JBool true)])
  /\ length (fetch_requests (trace (snd
       (request fails_twice varying_jitter stub_stringify (demo_client 2)
                "/api/v1/me" no_options empty_world)))) = 3%nat
  /\ sleeps (trace (snd
       (request fails_twice varying_jitter stub_stringify (demo_client 2)
                "/api/v1/me" no_options empty_world))) = [1000; 1833].
Proof.
  destruct (request_stops_at_decisive_attempt fails_twice varying_jitter
              stub_stringify (demo_client 2) "/api/v1/me" no_options 2 empty_world)
    as (Hout & Ht & Hs).
  - vm_compute. lia.
  - intros i Hi. destruct i as [| [| i]]; [reflexivity | reflexivity | lia].
  - left. reflexivity.
  - rewrite Hout, Ht, Hs. repeat split; reflexivity.
Defined.

(** X5 at the same run. *)
Lemma request_returns_only_on_ok_or_empty_witness :
  exists (j : nat) (resp : Response),
    fails_twice j (request_init stub_stringify (demo_client 2) "/api/v1/me" no_options)
    = Resolved resp
    /\ (is_empty resp = true \/ ok resp = true).
Proof.
  destruct (request_returns_only_on_ok_or_empty fails_twice varying_jitter
              stub_stringify (demo_client 2) "/api/v1/me" no_options empty_world
              (JObject [("success", JBool true)]) eq_refl)
    as (j & resp & Hres & Hok & _).
  exists j, resp. split; [exact Hres | exact Hok].
Defined.

(** X7 at an upload that fails twice, then succeeds: three forms built. *)
Lemma upload_stops_at_decisive_attempt_witness :
  fst (uploadFiles fails_twice no_jitter (demo_client 2) "/api/v1/media/upload"
                   two_files "media" empty_world)
  = Normal (JObject [("success", JBool true)])
  /\ forms (snd (uploadFiles fails_twice no_jitter (demo_client 2)
                             "/api/v1/media/upload" two_files "media" empty_world))
     = replicate 3 (form_entries "media" two_files).
Proof.
  destruct (upload_stops_at_decisive_attempt fails_twice no_jitter (demo_client 2)
              "/api/v1/media/upload" two_files "media" 2 empty_world)
    as (Hout & _ & _ & Hforms).
  - vm_compute. lia.
  - intros i Hi. destruct i as [| [| i]]; [reflexivity | reflexivity | lia].
  - left. reflexivity.
  - rewrite Hout, Hforms. split; reflexivity.
Defined.

(** X8 at a 404 without a body that decodes. *)
Lemma upload_error_messages_witness :
  fst (upload_attempt (always (Resolved not_found_bare)) no_jitter (demo_client 3)
                      "/api/v1/media/upload" two_files "media" 4 0 empty_world)
  = Abrupt (ThrownChaindoc
              (mkChaindocError "Upload failed with status 404" (Some 404)
                               JUndefined false)).
Proof.
  rewrite (proj1 (upload_error_messages (always (Resolved not_found_bare)) no_jitter
                    (demo_client 3) "/api/v1/media/upload" two_files "media"
                    4 0 empty_world)
                 not_found_bare eq_refl eq_refl ltac:(discriminate) eq_refl).
  reflexivity.
Defined.

(** X9 with the default policy: [1000 * 2^4] is above the cap of 10000,
    so attempt 7 waits as long as attempt 4 for the same random value:
    8750 ms when it is 1/4. *)
Lemma backoff_saturates_at_cap_witness :
  getRetryDelay (demo_client 3) 7 (1 # 4) = getRetryDelay (demo_client 3) 4 (1 # 4)
  /\ getRetryDelay (demo_client 3) 4 (1 # 4) = 8750.
Proof.
  assert (Hb : (0 <= 1000)%Q) by (vm_compute; discriminate).
  assert (Hmr : (10000 <= pow2 1023)%Q) by (vm_compute; discriminate).
  assert (Ha : 4 <= 7) by lia.
  assert (Ha' : 7 < 1024) by lia.
  assert (Hover : (10000 <= double_mul 1000 (Math_pow2 4))%Q)
    by (vm_compute; discriminate).
  destruct (backoff_saturates_at_cap (demo_client 3) 4 7 (1 # 4) Hb Hmr Ha Ha' Hover)
    as [E1 E2].
  split; [exact E1 | rewrite E2; vm_compute; reflexivity].
Defined.

(** X10 at a configured address that ends with a slash. *)
Lemma constructor_normalises_base_address_witness :
  constructor custom_config = inr custom_client
  /\ baseUrl custom_client = "https://proxy.example.com".
Proof.
  split; [reflexivity |].
  exact (proj1 (proj2 (constructor_normalises_base_address custom_config
                         custom_client eq_refl))
               "https://proxy.example.com" eq_refl).
Defined.

(** X11: a header of the call replaces the Authorization header, and a
    header of the configuration is sent along. *)
Lemma request_header_precedence_witness :
  req_headers (request_init stub_stringify custom_client "/api/v1/me" impersonating)
    !! "Authorization" = Some "Bearer sk_other_key"
  /\ req_headers (request_init stub_stringify custom_client "/api/v1/me" impersonating)
       !! "X-Tenant" = Some "acme".
Proof.
  split.
  - rewrite (request_header_precedence custom_config custom_client stub_stringify
               "/api/v1/me" impersonating "Authorization" eq_refl).
    reflexivity.
  - rewrite (request_header_precedence custom_config custom_client stub_stringify
               "/api/v1/me" impersonating "X-Tenant" eq_refl).
    reflexivity.
Defined.

(** X14: a page number of zero is left out of the query. *)
Lemma signatures_pagination_query_witness :
  pagination_query decimal (Some first_page) = "pageSize=20".
Proof.
  rewrite (proj1 (signatures_pagination_query (always (Resolved ok_payload)) no_jitter
                    stub_stringify decimal (demo_client 3) (Some first_page)
                    empty_world)).
  reflexivity.
Defined.

(** X15: an invalid deadline. *)
Lemma createRequest_serialises_deadline_witness :
  Signatures_createRequest (always (Resolved ok_payload)) no_jitter stub_stringify
                           (demo_client 3) undated_request empty_world
  = (Abrupt (ThrownError "RangeError" "Invalid time value"), empty_world).
Proof.
  exact (proj1 (createRequest_serialises_deadline (always (Resolved ok_payload))
                  no_jitter stub_stringify (demo_client 3) undated_request
                  empty_world)
               eq_refl).
Defined.

(** X18 with [maxRetries = -1]. *)
Lemma negative_maxRetries_makes_no_attempt_witness :
  fst (request (always (Resolved ok_payload)) no_jitter stub_stringify
               (demo_client (-1)) "/api/v1/me" no_options empty_world)
  = Abrupt (ThrownChaindoc
              (mkChaindocError "Request failed after retries" None JUndefined false)).
Proof.
  rewrite (proj1 (negative_maxRetries_makes_no_attempt
                    (always (Resolved ok_payload)) no_jitter stub_stringify
                    (demo_client (-1)) "/api/v1/me" no_options two_files "media"
                    empty_world ltac:(reflexivity) eq_refl)).
  reflexivity.
Defined.
